(** * epub-reader: the reader component and the content-service contract

    A shallow embedding of the TypeScript front end of the EPUB reader
    (the revised [BookReader] component, the original [BookReader] it
    replaced, and the shared types of [types/book.ts]) together with the
    parts of the content service that the front end only calls.

    JavaScript values are embedded as follows: a [number] that counts pages
    or indexes the spine is an integer of [Z] (the components compute with
    integers only; a number that is not an integer can reach them from
    outside alone and is not embedded); a string is a [string];
    [undefined] is [None]; an object literal and a parsed JSON document are
    values of [JSON]; [localStorage] is a finite map from keys to strings;
    a promise that rejects and a call that throws are [Throw]. *)

From Stdlib Require Import ZArith Lia Bool Ascii.
From stdpp Require Import gmap strings list pretty.

Set Warnings "-register-all".
Local Open Scope Z_scope.

(** ** The JavaScript platform *)

Module JS.

(** Completion of a call: a value, or a thrown exception (a rejected
    promise), carried as the text its interpolation renders. *)
Inductive completion (A : Type) : Type :=
  | Normal (a : A)
  | Throw (e : string).
Arguments Normal {A} a.
Arguments Throw {A} e.

(** JSON documents, also used for object literals handed to
    [JSON.stringify] and to [postMessage]. *)
Inductive JSON : Type :=
  | JNull
  | JBool (b : bool)
  | JNum (n : Z)
  | JStr (s : string)
  | JArr (items : list JSON)
  | JObj (fields : list (string * JSON)).

(** [!s] is false exactly on a non-empty string. *)
Definition truthy_string (s : string) : bool :=
  match s with EmptyString => false | String _ _ => true end.

(** Truthiness of [string | undefined]. *)
Definition truthy_opt_string (o : option string) : bool :=
  match o with None => false | Some s => truthy_string s end.

(** Truthiness of a parsed document ([null], [false], [0] and the empty
    string are falsy). *)
Definition truthy (v : JSON) : bool :=
  match v with
  | JNull => false
  | JBool b => b
  | JNum n => negb (n =? 0)
  | JStr s => truthy_string s
  | JArr _ | JObj _ => true
  end.

(** Own-property read [v.k] for a key that no prototype defines:
    [undefined] on everything but an object that has the field (a read on
    [null] throws; the call sites guard it by the truthiness of [v]). An
    object lists each of its keys once. *)
Fixpoint assoc (k : string) (fields : list (string * JSON)) : option JSON :=
  match fields with
  | [] => None
  | (k', v) :: rest => if String.eqb k k' then Some v else assoc k rest
  end.

Definition prop (v : JSON) (k : string) : option JSON :=
  match v with
  | JObj fields => assoc k fields
  | _ => None
  end.

(** [a === b] for [a] a property read and [b : string | undefined]. *)
Definition strict_eq_string (a : option JSON) (b : option string) : bool :=
  match a, b with
  | None, None => true
  | Some (JStr s), Some t => String.eqb s t
  | _, _ => false
  end.

(** [ToString], as a template literal applies it. A number is printed
    with all its digits, as JavaScript prints an integer below [1e21] in
    magnitude. *)
Fixpoint to_string (v : JSON) : string :=
  match v with
  | JNull => "null"
  | JBool true => "true"
  | JBool false => "false"
  | JNum n => pretty n
  | JStr s => s
  | JArr items =>
      (fix join (l : list JSON) : string :=
         match l with
         | [] => ""
         | [x] => match x with JNull => "" | _ => to_string x end
         | x :: rest =>
             (match x with JNull => "" | _ => to_string x end)
               +:+ "," +:+ join rest
         end) items
  | JObj _ => "[object Object]"
  end.

(** [`${x}`] for [x : string | undefined]. *)
Definition tmpl (o : option string) : string :=
  match o with None => "undefined" | Some s => s end.

(** [`${x}`] for [x] a property read. *)
Definition tmpl_value (o : option JSON) : string :=
  match o with None => "undefined" | Some v => to_string v end.

(** [arr[i]] for a number [i]: [undefined] outside the array. *)
Definition index {A : Type} (arr : list A) (i : Z) : option A :=
  if i <? 0 then None else arr !! Z.to_nat i.

(** [arr.length]. *)
Definition len {A : Type} (arr : list A) : Z := Z.of_nat (length arr).

(** Does [s] start with [p]? *)
Fixpoint starts_with (p s : string) : bool :=
  match p, s with
  | EmptyString, _ => true
  | String a p', String b s' => if Ascii.eqb a b then starts_with p' s' else false
  | String _ _, EmptyString => false
  end.

(** The rest of [s] after its first [n] characters. *)
Fixpoint drop_chars (n : nat) (s : string) : string :=
  match n, s with
  | O, _ => s
  | S n', String _ s' => drop_chars n' s'
  | S _, EmptyString => EmptyString
  end.

(** [s.replace(pat, rep)] with a string pattern: the first occurrence of
    [pat] in [s], scanning from the left, is replaced by [rep]; [s] is
    returned as it is when [pat] does not occur. [rep] is taken
    literally (the call sites pass the empty string). *)
Fixpoint replace (pat rep s : string) : string :=
  if starts_with pat s then rep +:+ drop_chars (String.length pat) s
  else match s with
       | EmptyString => EmptyString
       | String c s' => String c (replace pat rep s')
       end.

End JS.

Import JS.

(** ** [types/book.ts] *)

(** [interface TocItem]. *)
Inductive TocItem : Type := mkTocItem {
  label : string;
  content : string;
  play_order : Z;
  children : list TocItem
}.

(** Induction on a table-of-contents entry with the hypothesis available
    for every child. *)
Fixpoint TocItem_nested_ind (P : TocItem -> Prop)
    (step : forall l c p ch, Forall P ch -> P (mkTocItem l c p ch))
    (n : TocItem) : P n :=
  match n with
  | mkTocItem l c p ch =>
      step l c p ch
        ((fix all (items : list TocItem) : Forall P items :=
            match items with
            | [] => List.Forall_nil P
            | x :: rest => List.Forall_cons P x rest (TocItem_nested_ind P step x) (all rest)
            end) ch)
  end.

(** [interface ReadingPosition], as the object literal that
    [saveReadingPosition] builds, field by field in source order. *)
Definition ReadingPosition (bookKey contentPath : string) (page timestamp : Z) : JSON :=
  JObj [("bookKey", JStr bookKey);
        ("contentPath", JStr contentPath);
        ("page", JNum page);
        ("timestamp", JNum timestamp)].

(** ** A state monad with exceptions, for [async] bodies with [try]/[catch]

    A React state setter takes effect whatever happens later in the body,
    so the state is threaded through a [Throw] as well. *)

Module Act.
Section WithState.
Context {S : Type}.

Definition t (A : Type) : Type := S -> completion A * S.

Definition ret {A} (a : A) : t A := fun s => (Normal a, s).

Definition bind {A B} (m : t A) (k : A -> t B) : t B :=
  fun s => match m s with
           | (Normal a, s') => k a s'
           | (Throw e, s') => (Throw e, s')
           end.

(** [await p] for a promise that has settled as [c]. *)
Definition await {A} (c : completion A) : t A := fun s => (c, s).

(** A state setter. *)
Definition set (f : S -> S) : t unit := fun s => (Normal tt, f s).

(** [try { body } catch (err) { handler(err) } finally { last }]. *)
Definition try_catch_finally (body : t unit) (handler : string -> t unit)
    (last : t unit) : t unit :=
  fun s =>
    let '(c, s1) :=
      match body s with
      | (Normal tt, s') => (Normal tt, s')
      | (Throw e, s') => handler e s'
      end in
    match last s1 with
    | (Normal tt, s2) => (c, s2)
    | (Throw e, s2) => (Throw e, s2)
    end.
End WithState.
End Act.

#[global] Instance act_ret {S : Type} : MRet (@Act.t S) := @Act.ret S.
#[global] Instance act_bind {S : Type} : MBind (@Act.t S) :=
  fun A B k m => Act.bind m k.

(** ** The backend commands that the components [invoke]

    The commands are implemented by the content service; a component sees
    each of them as a promise. *)
Record Backend : Type := {
  get_book_title : option string -> completion string;
  get_book_toc : option string -> completion (list TocItem);
  get_spine : option string -> completion (list string);
  get_current_spine_index : option string -> option JSON -> completion (option Z)
}.

(** ** The revised [BookReader] *)

Module Reader.

(** The route parameter, the [useState] cells and the iframe ref of one
    render; [iframeRef] tells whether [iframeRef.current] is set. *)
Record State : Type := mkState {
  bookKey : option string;
  toc : list TocItem;
  currentContent : string;
  bookTitle : string;
  loading : bool;
  error : option string;
  currentPage : Z;
  totalPages : Z;
  spine : list string;
  currentSpineIndex : Z;
  iframeRef : bool
}.

(** The state of a freshly mounted component. *)
Definition initial (key : option string) : State :=
  {| bookKey := key; toc := []; currentContent := ""; bookTitle := "";
     loading := true; error := None; currentPage := 0; totalPages := 0;
     spine := []; currentSpineIndex := 0; iframeRef := false |}.

(** The state setters of [useState]. *)
Definition setToc (v : list TocItem) (s : State) : State :=
  mkState (bookKey s) v (currentContent s) (bookTitle s) (loading s) (error s)
          (currentPage s) (totalPages s) (spine s) (currentSpineIndex s) (iframeRef s).
Definition setCurrentContent (v : string) (s : State) : State :=
  mkState (bookKey s) (toc s) v (bookTitle s) (loading s) (error s)
          (currentPage s) (totalPages s) (spine s) (currentSpineIndex s) (iframeRef s).
Definition setBookTitle (v : string) (s : State) : State :=
  mkState (bookKey s) (toc s) (currentContent s) v (loading s) (error s)
          (currentPage s) (totalPages s) (spine s) (currentSpineIndex s) (iframeRef s).
Definition setLoading (v : bool) (s : State) : State :=
  mkState (bookKey s) (toc s) (currentContent s) (bookTitle s) v (error s)
          (currentPage s) (totalPages s) (spine s) (currentSpineIndex s) (iframeRef s).
Definition setError (v : option string) (s : State) : State :=
  mkState (bookKey s) (toc s) (currentContent s) (bookTitle s) (loading s) v
          (currentPage s) (totalPages s) (spine s) (currentSpineIndex s) (iframeRef s).
Definition setCurrentPage (v : Z) (s : State) : State :=
  mkState (bookKey s) (toc s) (currentContent s) (bookTitle s) (loading s) (error s)
          v (totalPages s) (spine s) (currentSpineIndex s) (iframeRef s).
Definition setTotalPages (v : Z) (s : State) : State :=
  mkState (bookKey s) (toc s) (currentContent s) (bookTitle s) (loading s) (error s)
          (currentPage s) v (spine s) (currentSpineIndex s) (iframeRef s).
Definition setSpine (v : list string) (s : State) : State :=
  mkState (bookKey s) (toc s) (currentContent s) (bookTitle s) (loading s) (error s)
          (currentPage s) (totalPages s) v (currentSpineIndex s) (iframeRef s).
Definition setCurrentSpineIndex (v : Z) (s : State) : State :=
  mkState (bookKey s) (toc s) (currentContent s) (bookTitle s) (loading s) (error s)
          (currentPage s) (totalPages s) (spine s) v (iframeRef s).

(** [`epub://${bookKey}/${path}`]. *)
Definition epub_uri (key : option string) (path : string) : string :=
  "epub://" +:+ tmpl key +:+ "/" +:+ path.

(** [`reading-${bookKey}`]. *)
Definition reading_key (key : option string) : string :=
  "reading-" +:+ tmpl key.

(** The messages of the pagination sub-protocol, as the object literals
    passed to [sendMessage]. *)
Definition pagination_next : JSON := JObj [("type", JStr "pagination-next")].
Definition pagination_previous : JSON := JObj [("type", JStr "pagination-previous")].

(** [iframeRef.current?.sendMessage(msg)]: the message goes out when the
    ref is set, and nothing happens otherwise. The result lists the
    messages handed to the rendered content. *)
Definition sendMessage (s : State) (msg : JSON) : list JSON :=
  if iframeRef s then [msg] else [].

(** [handleNextPage]: the next render's state and the messages sent. *)
Definition handleNextPage (s : State) : State * list JSON :=
  if currentPage s >=? totalPages s - 1 then
    if currentSpineIndex s <? len (spine s) - 1 then
      let nextSpineIndex := currentSpineIndex s + 1 in
      let nextContentPath := index (spine s) nextSpineIndex in
      (setCurrentPage 0
         (setCurrentSpineIndex nextSpineIndex
            (setCurrentContent (epub_uri (bookKey s) (tmpl nextContentPath)) s)),
       [])
    else (s, [])
  else (s, sendMessage s pagination_next).

(** [handlePreviousPage]. *)
Definition handlePreviousPage (s : State) : State * list JSON :=
  if currentPage s =? 0 then
    if currentSpineIndex s >? 0 then
      let prevSpineIndex := currentSpineIndex s - 1 in
      let prevContentPath := index (spine s) prevSpineIndex in
      (setCurrentPage 0
         (setCurrentSpineIndex prevSpineIndex
            (setCurrentContent (epub_uri (bookKey s) (tmpl prevContentPath)) s)),
       [])
    else (s, [])
  else (s, sendMessage s pagination_previous).

(** *** Persistence, loading and the remaining handlers

    [JSON.stringify], [JSON.parse] and the backend belong to the platform
    and to the content service; the component is defined over them. *)
Section WithPlatform.
Variable JSON_stringify : JSON -> string.
Variable JSON_parse : string -> completion JSON.
Variable backend : Backend.

(** [saveReadingPosition], run in the render [s] at clock reading [now]
    ([Date.now()]) against the store [ls]. *)
Definition saveReadingPosition (s : State) (now : Z)
    (ls : gmap string string) : gmap string string :=
  if negb (truthy_opt_string (bookKey s)) || negb (truthy_string (currentContent s))
  then ls
  else
    let position :=
      ReadingPosition (tmpl (bookKey s))
        (replace ("epub://" +:+ tmpl (bookKey s) +:+ "/") "" (currentContent s))
        (currentPage s) now in
    <[reading_key (bookKey s) := JSON_stringify position]> ls.

(** [loadReadingPosition]; the result [null] is [JNull]. *)
Definition loadReadingPosition (key : option string)
    (ls : gmap string string) : completion JSON :=
  if negb (truthy_opt_string key) then Normal JNull
  else
    match ls !! reading_key key with
    | None => Normal JNull
    | Some saved =>
        if negb (truthy_string saved) then Normal JNull
        else
          match JSON_parse saved with
          | Normal v => Normal v
          | Throw _ => Normal JNull
          end
    end.

(** [loadBook], whose closure is the render [s]. *)
Definition loadBook (s : State) (ls : gmap string string) : Act.t (S := State) unit :=
  Act.try_catch_finally
    (Act.set (setLoading true);;
     Act.set (setError None);;
     title ← Act.await (get_book_title backend (bookKey s));
     Act.set (setBookTitle title);;
     tocData ← Act.await (get_book_toc backend (bookKey s));
     Act.set (setToc tocData);;
     spineData ← Act.await (get_spine backend (bookKey s));
     Act.set (setSpine spineData);;
     savedPosition ← Act.await (loadReadingPosition (bookKey s) ls);
     if truthy savedPosition
        && strict_eq_string (prop savedPosition "bookKey") (bookKey s)
     then
       let contentPath := prop savedPosition "contentPath" in
       Act.set (setCurrentContent
                  ("epub://" +:+ tmpl (bookKey s) +:+ "/" +:+ tmpl_value contentPath));;
       spineIdx ← Act.await (get_current_spine_index backend (bookKey s) contentPath);
       match spineIdx with
       | Some i => Act.set (setCurrentSpineIndex i)
       | None => mret tt
       end
     else if len spineData >? 0 then
       let firstContent := index spineData 0 in
       Act.set (setCurrentContent (epub_uri (bookKey s) (tmpl firstContent)));;
       Act.set (setCurrentSpineIndex 0)
     else mret tt)
    (fun err => Act.set (setError (Some ("Failed to load book: " +:+ err))))
    (Act.set (setLoading false)).

(** The render that follows [loadBook]. *)
Definition afterLoadBook (s : State) (ls : gmap string string) : State :=
  snd (loadBook s ls s).

(** The effect that depends on [bookKey]. *)
Definition bookKeyEffect (s : State) (ls : gmap string string) : State :=
  if negb (truthy_opt_string (bookKey s))
  then setLoading false (setError (Some "No book specified") s)
  else afterLoadBook s ls.

(** [handlePaginationUpdate], as the viewer calls the handler of the
    current render [s]: the setters act on the next render, while
    [saveReadingPosition] still sees the render [s] it was created in. *)
Definition handlePaginationUpdate (page total : Z) (s : State) (now : Z)
    (ls : gmap string string) : State * gmap string string :=
  (setTotalPages total (setCurrentPage page s), saveReadingPosition s now ls).

(** [handleTocItemClick]. *)
Definition handleTocItemClick (content : string) (s : State) : State :=
  let fullUri := epub_uri (bookKey s) content in
  let s1 := setCurrentPage 0 (setCurrentContent fullUri s) in
  match get_current_spine_index backend (bookKey s) (Some (JStr content)) with
  | Normal (Some spineIdx) => setCurrentSpineIndex spineIdx s1
  | Normal None => s1
  | Throw _ => s1
  end.

(** *** The component as a transition system

    What can happen to a mounted reader: the effect that loads the book
    runs, the rendered content reports its pagination, a button or a
    table-of-contents entry is clicked, the viewer mounts or unmounts. *)
Inductive Event : Type :=
  | EvLoadBook
  | EvPaginationUpdate (page total now : Z)
  | EvNextPage
  | EvPreviousPage
  | EvTocItemClick (content : string)
  | EvIframeRef (mounted : bool).

(** The reader in its surroundings: the current render, the store and
    the messages handed to the rendered content so far. *)
Record World : Type := mkWorld {
  state : State;
  localStorage : gmap string string;
  sent : list JSON
}.

(** React sets and clears [iframeRef.current] as the viewer mounts and
    unmounts. *)
Definition setIframeRef (v : bool) (s : State) : State :=
  mkState (bookKey s) (toc s) (currentContent s) (bookTitle s) (loading s) (error s)
          (currentPage s) (totalPages s) (spine s) (currentSpineIndex s) v.

(** One event, handled by the handlers of the current render. *)
Definition step (w : World) (ev : Event) : World :=
  match ev with
  | EvLoadBook =>
      mkWorld (bookKeyEffect (state w) (localStorage w)) (localStorage w) (sent w)
  | EvPaginationUpdate page total now =>
      let '(s', ls') := handlePaginationUpdate page total (state w) now (localStorage w) in
      mkWorld s' ls' (sent w)
  | EvNextPage =>
      let '(s', out) := handleNextPage (state w) in
      mkWorld s' (localStorage w) (sent w ++ out)
  | EvPreviousPage =>
      let '(s', out) := handlePreviousPage (state w) in
      mkWorld s' (localStorage w) (sent w ++ out)
  | EvTocItemClick c =>
      mkWorld (handleTocItemClick c (state w)) (localStorage w) (sent w)
  | EvIframeRef b =>
      mkWorld (setIframeRef b (state w)) (localStorage w) (sent w)
  end.

(** A sequence of events, each handled in the render left by the one
    before. *)
Definition run (w : World) (evs : list Event) : World := fold_left step evs w.

(** The world of a reader that has just been mounted on a store. *)
Definition mounted (key : option string) (ls : gmap string string) : World :=
  mkWorld (initial key) ls [].

(** Does an event report a page that is not negative? Events that
    report no page do. *)
Definition reports_page_from_zero (ev : Event) : bool :=
  match ev with
  | EvPaginationUpdate page _ _ => 0 <=? page
  | _ => true
  end.

End WithPlatform.

End Reader.

(** ** The original [BookReader] *)

Module ReaderV1.

(** The route parameter and the [useState] cells of one render. *)
Record State : Type := mkState {
  bookKey : option string;
  toc : list TocItem;
  currentContent : string;
  bookTitle : string;
  loading : bool;
  error : option string
}.

Definition initial (key : option string) : State :=
  {| bookKey := key; toc := []; currentContent := ""; bookTitle := "";
     loading := true; error := None |}.

(** The state setters of [useState]. *)
Definition setToc (v : list TocItem) (s : State) : State :=
  mkState (bookKey s) v (currentContent s) (bookTitle s) (loading s) (error s).
Definition setCurrentContent (v : string) (s : State) : State :=
  mkState (bookKey s) (toc s) v (bookTitle s) (loading s) (error s).
Definition setBookTitle (v : string) (s : State) : State :=
  mkState (bookKey s) (toc s) (currentContent s) v (loading s) (error s).
Definition setLoading (v : bool) (s : State) : State :=
  mkState (bookKey s) (toc s) (currentContent s) (bookTitle s) v (error s).
Definition setError (v : option string) (s : State) : State :=
  mkState (bookKey s) (toc s) (currentContent s) (bookTitle s) (loading s) v.

Section WithBackend.
Variable backend : Backend.

(** [loadBook] of the original reader, whose closure is the render [s].
    The guard [tocData.length > 0] makes the read of [tocData[0].content]
    safe. *)
Definition loadBook (s : State) : Act.t (S := State) unit :=
  Act.try_catch_finally
    (Act.set (setLoading true);;
     Act.set (setError None);;
     title ← Act.await (get_book_title backend (bookKey s));
     Act.set (setBookTitle title);;
     tocData ← Act.await (get_book_toc backend (bookKey s));
     Act.set (setToc tocData);;
     if len tocData >? 0 then
       match index tocData 0 with
       | Some first =>
           let firstContent := content first in
           Act.set (setCurrentContent
                      ("epub://" +:+ tmpl (bookKey s) +:+ "/" +:+ firstContent))
       | None => Act.await (Throw "TypeError")
       end
     else mret tt)
    (fun err => Act.set (setError (Some ("Failed to load book: " +:+ err))))
    (Act.set (setLoading false)).

(** The render that follows [loadBook]. *)
Definition afterLoadBook (s : State) : State := snd (loadBook s s).

(** [handleTocItemClick]. *)
Definition handleTocItemClick (c : string) (s : State) : State :=
  setCurrentContent ("epub://" +:+ tmpl (bookKey s) +:+ "/" +:+ c) s.

End WithBackend.

End ReaderV1.

(** ** The content service

    The service that answers the backend commands and serves the rendered
    content is not part of the front-end sources; its operations are
    embedded from the service contract. *)

Module Service.

(** *** Navigation model *)

(** Modelled from the spec: the document record of the Archive Loader
    (the loader is missing from the sources). An [EpubDocument] carries
    its key, its title, an optional cover path, the manifest from resource
    id to path and MIME type, the spine in reading order and the table of
    contents as a forest. *)
Record EpubDocument : Type := mkEpubDocument {
  bookKey : string;
  title : string;
  coverResourcePath : option string;
  manifest : gmap string (string * string);
  spine : list string;
  toc : list TocItem
}.

(** Modelled from the spec: fragment stripping of the missing
    [spineIndexOf]; a fragment starts at the first [#] and runs to the
    end of the path. *)
Fixpoint strip_fragment (s : string) : string :=
  match s with
  | EmptyString => EmptyString
  | String c s' =>
      if Ascii.eqb c "#"%char then EmptyString else String c (strip_fragment s')
  end.

Section Navigation.
(** The path normalization that the service shares with its resource
    resolver; the contract fixes no more than that both use the same. *)
Variable normalize : string -> string.

(** Modelled from the spec: [spineOf], missing from the sources,
    identical to the document's spine. *)
Definition spineOf (doc : EpubDocument) : list string := spine doc.

(** Modelled from the spec: [spineIndexOf], missing from the sources
    (the command [get_current_spine_index] of the backend). The index of
    the first spine entry whose normalized path equals the normalized
    content path, the fragment of the content path being stripped before
    the comparison; [None] when no entry matches. *)
Definition spineIndexOf (doc : EpubDocument) (contentPath : string) : option nat :=
  fst <$> list_find
            (fun entry => normalize entry = normalize (strip_fragment contentPath))
            (spineOf doc).
End Navigation.

(** Modelled from the spec: the ordering that the missing Archive Loader
    gives to each level of the table of contents. A node is put in front
    of the first node already placed whose [play_order] is not smaller, so
    that nodes with equal [play_order] keep their declaration order. *)
Fixpoint place (n : TocItem) (level : list TocItem) : list TocItem :=
  match level with
  | [] => [n]
  | m :: rest =>
      if play_order n <=? play_order m then n :: m :: rest
      else m :: place n rest
  end.

(** Modelled from the spec: one level as the missing Archive Loader orders
    it, each node placed in turn, the last declared first. *)
Definition order_level (level : list TocItem) : list TocItem :=
  foldr place [] level.

(** Modelled from the spec: the tree built by the missing Archive Loader
    from the navigation points in declaration order; every level is
    ordered, children first. *)
Fixpoint order_node (n : TocItem) : TocItem :=
  match n with
  | mkTocItem l c p ch => mkTocItem l c p (order_level (map order_node ch))
  end.

(** Modelled from the spec: the forest built by the missing Archive Loader
    from the navigation points of a document. *)
Definition order_toc (navPoints : list TocItem) : list TocItem :=
  order_level (map order_node navPoints).

(** Modelled from the spec: the document that the missing Archive Loader
    builds from the parts it has parsed out of an archive. *)
Definition build_document (key ttl : string) (cover : option string)
    (mf : gmap string (string * string)) (sp : list string)
    (navPoints : list TocItem) : EpubDocument :=
  mkEpubDocument key ttl cover mf sp (order_toc navPoints).

(** Modelled from the spec: [tocOf], missing from the sources, identical
    to the document's table of contents. *)
Definition tocOf (doc : EpubDocument) : list TocItem := toc doc.

(** Does every spine entry resolve to a manifest entry? A document for
    which it does not is refused at load time. *)
Definition spine_resolves (doc : EpubDocument) : bool :=
  forallb
    (fun path => existsb (fun entry => String.eqb entry.2.1 path)
                   (map_to_list (manifest doc)))
    (spine doc).

(** Is a sequence of integers non-decreasing? *)
Fixpoint nondecreasing (l : list Z) : bool :=
  match l with
  | [] => true
  | x :: rest =>
      match rest with
      | [] => true
      | y :: _ => (x <=? y) && nondecreasing rest
      end
  end.

(** Every level of a forest is non-decreasing in [play_order]. *)
Fixpoint node_ordered (n : TocItem) : bool :=
  match n with
  | mkTocItem _ _ _ ch =>
      nondecreasing (map play_order ch) && forallb node_ordered ch
  end.

Definition forest_ordered (f : list TocItem) : bool :=
  nondecreasing (map play_order f) && forallb node_ordered f.

(** The nodes of a level that carry a given [play_order], in order. *)
Definition with_play_order (p : Z) (level : list TocItem) : list TocItem :=
  filter (fun n => play_order n = p) level.

(** *** Library index *)

Section Library.
(** An archive file on disk, and the Archive Loader, which either
    builds a document or fails with a [LoadError]. *)
Variable File : Type.
Variable LoadError : Type.
Variable load : string -> File -> LoadError + EpubDocument.

(** Does [s] end with [suffix]? *)
Definition ends_with (suffix s : string) : bool :=
  starts_with (String.rev suffix) (String.rev s).

(** Modelled from the spec: the test of the missing [loadAll] for a file
    with the [.epub] extension. *)
Definition is_epub (name : string) : bool := ends_with ".epub" name.

(** Modelled from the spec: the state of the missing [loadAll] while it
    scans, the documents loaded so far and the log of the files that were
    skipped. *)
Record Scan : Type := mkScan {
  index : gmap string EpubDocument;
  skipped : list (string * LoadError)
}.

(** Modelled from the spec: one iteration of the missing [loadAll];
    a file without the extension is passed over, a file that loads is
    added under its file name, a file that fails is logged and the scan
    goes on. *)
Definition scan_entry (acc : Scan) (entry : string * File) : Scan :=
  let '(name, file) := entry in
  if is_epub name then
    match load name file with
    | inr doc => mkScan (<[name := doc]> (index acc)) (skipped acc)
    | inl e => mkScan (index acc) (skipped acc ++ [(name, e)])
    end
  else acc.

(** Modelled from the spec: the outcome of the missing [loadAll]; the
    directory itself could not be read, or an index was built. *)
Inductive ScanResult : Type :=
  | DirectoryUnreadable
  | Built (s : Scan).

(** Modelled from the spec: [loadAll], missing from the sources. A
    directory is a finite map from file names to files, or [None] when
    it is missing or unreadable, the one fatal condition. *)
Definition loadAll (dir : option (gmap string File)) : ScanResult :=
  match dir with
  | None => DirectoryUnreadable
  | Some entries =>
      Built (fold_left scan_entry (map_to_list entries) (mkScan ∅ []))
  end.

(** The files of a directory that carry the extension and load, and
    those that carry it and fail. *)
Definition parseable (entry : string * File) : bool :=
  is_epub entry.1 && match load entry.1 entry.2 with inr _ => true | inl _ => false end.

Definition unparseable (entry : string * File) : bool :=
  is_epub entry.1 && match load entry.1 entry.2 with inr _ => false | inl _ => true end.

(** The number of entries of a directory that satisfy a test. *)
Definition count_entries (test : string * File -> bool)
    (entries : gmap string File) : nat :=
  length (List.filter test (map_to_list entries)).
End Library.

Arguments mkScan {LoadError} index skipped.
Arguments index {LoadError} s.
Arguments skipped {LoadError} s.
Arguments DirectoryUnreadable {LoadError}.
Arguments Built {LoadError} s.
Arguments scan_entry {File LoadError} load acc entry.
Arguments loadAll {File LoadError} load dir.
Arguments parseable {File LoadError} load entry.
Arguments unparseable {File LoadError} load entry.
Arguments count_entries {File} test entries.

(** *** The script injected by the Content Rewriter *)

Module Script.

(** Letters, and the characters that may follow the first letter of a
    scheme: letters, digits, [+], [-] and [.]. *)
Definition is_alpha (c : Ascii.ascii) : bool :=
  let n := Ascii.nat_of_ascii c in
  ((65 <=? n)%nat && (n <=? 90)%nat) || ((97 <=? n)%nat && (n <=? 122)%nat).

Definition is_scheme_char (c : Ascii.ascii) : bool :=
  let n := Ascii.nat_of_ascii c in
  is_alpha c || ((48 <=? n)%nat && (n <=? 57)%nat)
  || Ascii.eqb c "+"%char || Ascii.eqb c "-"%char || Ascii.eqb c "."%char.

(** Modelled from the spec: the scheme test of the missing injected
    script. The characters of [s] up to its first colon, when they are all
    scheme characters. *)
Fixpoint scheme_rest (s : string) : option string :=
  match s with
  | EmptyString => None
  | String c s' =>
      if Ascii.eqb c ":"%char then Some EmptyString
      else if is_scheme_char c then String c <$> scheme_rest s'
      else None
  end.

(** Modelled from the spec: the scheme that the missing injected script
    reads off a reference, a letter, then scheme characters, then a colon.
    A reference without one is relative. *)
Definition scheme_of (href : string) : option string :=
  match href with
  | EmptyString => None
  | String c _ => if is_alpha c then scheme_rest href else None
  end.

(** Is [sch] spelled as a scheme: a letter, then scheme characters? *)
Fixpoint all_scheme_chars (s : string) : bool :=
  match s with
  | EmptyString => true
  | String c s' => is_scheme_char c && all_scheme_chars s'
  end.

Definition is_scheme (sch : string) : bool :=
  match sch with
  | EmptyString => false
  | String c _ => is_alpha c && all_scheme_chars sch
  end.

(** Modelled from the spec: the custom scheme ([epub://]) that the missing
    injected script treats as internal. *)
Definition custom_scheme : string := "epub".

(** Modelled from the spec: the three classes of the missing injected
    script. *)
Inductive LinkClass : Type :=
  | FragmentOnly
  | InPlace
  | External.

(** Modelled from the spec: the classification of a clicked link by
    the missing injected script: a reference that is only a fragment, a
    relative path or a URI of the custom scheme, any other scheme. *)
Definition classify (href : string) : LinkClass :=
  if starts_with "#" href then FragmentOnly
  else
    match scheme_of href with
    | None => InPlace
    | Some sch => if String.eqb sch custom_scheme then InPlace else External
    end.

(** Modelled from the spec: the rendered content as the click listener of
    the missing injected script sees it, the location of the rendering
    surface and the messages posted to the parent. *)
Record Frame : Type := mkFrame {
  location : string;
  posted : list JSON
}.

(** Modelled from the spec: what the listener leaves behind, whether
    default navigation was prevented, and the frame. *)
Record Handled : Type := mkHandled {
  defaultPrevented : bool;
  frame : Frame
}.

(** Modelled from the spec: the outbound message of the missing injected
    script for an external link. *)
Definition external_link (url : string) : JSON :=
  JObj [("type", JStr "epub-external-link"); ("url", JStr url)].

Section Listener.
(** Resolution of a reference against the current location. *)
Variable resolve : string -> string -> string.

(** Modelled from the spec: the click listener of the missing
    injected script, for a click on an anchor with the given
    [href]. *)
Definition on_click (href : string) (f : Frame) : Handled :=
  match classify href with
  | FragmentOnly => mkHandled false f
  | InPlace => mkHandled true (mkFrame (resolve (location f) href) (posted f))
  | External => mkHandled true (mkFrame (location f) (posted f ++ [external_link href]))
  end.

(** A click on an anchor: the listener runs, and unless it has prevented
    it the browser follows the link, which moves the rendering surface to
    the resolved target (for a bare fragment, the same document scrolled
    to the fragment). *)
Definition click (href : string) (f : Frame) : Frame :=
  let handled := on_click href f in
  if defaultPrevented handled then frame handled
  else mkFrame (resolve (location (frame handled)) href) (posted (frame handled)).
End Listener.

End Script.

End Service.

(** ** What the revised [BookReader] renders in its header *)

Module ReaderView.
Import Reader.

(** The [disabled] attribute and the [title] of the button that goes
    back. *)
Definition previousDisabled (s : State) : bool :=
  (currentPage s =? 0) && (currentSpineIndex s =? 0).

Definition previousTitle (s : State) : string :=
  if (currentPage s =? 0) && (currentSpineIndex s >? 0)
  then "Previous chapter" else "Previous page".

(** The [disabled] attribute and the [title] of the button that goes
    forward. *)
Definition nextDisabled (s : State) : bool :=
  (currentPage s >=? totalPages s - 1) && (currentSpineIndex s >=? len (spine s) - 1).

Definition nextTitle (s : State) : string :=
  if (currentPage s >=? totalPages s - 1) && (currentSpineIndex s <? len (spine s) - 1)
  then "Next chapter" else "Next page".

(** Is the content shown the spine entry at the current spine index? *)
Definition on_spine (s : State) : bool :=
  match index (spine s) (currentSpineIndex s) with
  | Some path => String.eqb (currentContent s) (epub_uri (bookKey s) path)
  | None => false
  end.

(** The events of turning pages: a click on one of the two buttons, a
    report of the rendered content, the viewer mounting or unmounting. *)
Definition is_paging (ev : Event) : bool :=
  match ev with
  | EvNextPage | EvPreviousPage | EvPaginationUpdate _ _ _ | EvIframeRef _ => true
  | EvLoadBook | EvTocItemClick _ => false
  end.

(** Is a message one of the two that the reader sends? *)
Definition is_pagination_message (msg : JSON) : bool :=
  match msg with
  | JObj [(k, JStr tag)] =>
      String.eqb k "type"
      && (String.eqb tag "pagination-next" || String.eqb tag "pagination-previous")
  | _ => false
  end.

End ReaderView.

(** ** The original [IframeViewer] *)

Module IframeViewer.

(** [typeof v]. *)
Definition typeof (v : option JSON) : string :=
  match v with
  | None => "undefined"
  | Some (JBool _) => "boolean"
  | Some (JNum _) => "number"
  | Some (JStr _) => "string"
  | Some JNull | Some (JArr _) | Some (JObj _) => "object"
  end.

(** Truthiness of a value that may be [undefined]. *)
Definition truthy_value (v : option JSON) : bool :=
  match v with
  | None => false
  | Some v' => truthy v'
  end.

(** [v.k] for a value that has passed the object test. *)
Definition field (v : option JSON) (k : string) : option JSON :=
  match v with
  | None => None
  | Some v' => prop v' k
  end.

(** A [MessageEvent], as far as the listener reads it. *)
Record MessageEvent : Type := mkMessageEvent {
  data : option JSON;
  origin : string
}.

(** What the listener does to the outside: console output with its label
    and the value logged, the call of [openUrl], an [alert]. *)
Inductive Level : Type :=
  | Log
  | Warn
  | Error.

Inductive Effect : Type :=
  | Console (level : Level) (label : string) (value : option JSON)
  | OpenUrl (url : string)
  | Alert (text : string).

(** A line feed. *)
Definition LF : string := String "010"%char EmptyString.

Section WithOpener.
(** [openUrl] of the opener plugin, a promise. *)
Variable openUrl : string -> completion unit.

(** [handleExternalLink]. *)
Definition handleExternalLink (url : string) : list Effect :=
  Console Log "[IframeViewer] Opening external link:" (Some (JStr url))
  :: OpenUrl url
  :: match openUrl url with
     | Normal _ => []
     | Throw e =>
         [Console Error "[IframeViewer] Failed to open external link:" (Some (JStr e));
          Alert ("Failed to open link: " +:+ url +:+ LF +:+ LF +:+ "Error: " +:+ e)]
     end.

(** [handleMessage]. The last guard passed, [message.url] is a string. *)
Definition handleMessage (event : MessageEvent) : list Effect :=
  if negb (truthy_value (data event)) || negb (String.eqb (typeof (data event)) "object")
  then []
  else
    let message := data event in
    if negb (strict_eq_string (field message "type") (Some "epub-external-link"))
    then []
    else if negb (truthy_value (field message "url"))
            || negb (String.eqb (typeof (field message "url")) "string")
    then [Console Error "[IframeViewer] Invalid external link message:" message]
    else if negb (String.eqb (origin event) "null")
            && negb (starts_with "epub://" (origin event))
    then [Console Warn "[IframeViewer] Rejected message from origin:"
            (Some (JStr (origin event)))]
    else
      match field message "url" with
      | Some (JStr url) => handleExternalLink url
      | _ => []
      end.
End WithOpener.

End IframeViewer.

(** ** [TableOfContents] *)

Module TableOfContents.

(** [arr.map((x, index) => f x index)], counting from [start]. *)
Definition map_indexed {A B : Type} (f : A -> nat -> B) : nat -> list A -> list B :=
  fix go (start : nat) (arr : list A) : list B :=
    match arr with
    | [] => []
    | x :: rest => f x start :: go (S start) rest
    end.

(** A rendered [li]: the React key of its component, the pixels of its
    inline [paddingLeft], the text of its button, the content path that a
    click hands to [onItemClick], and the items of its nested [ul] (none
    when no [ul] is rendered, which is when the entry has no children). *)
Inductive Li : Type := mkLi {
  key : string;
  paddingLeft : Z;
  button : string;
  onClick : string;
  ul : list Li
}.

(** [`${item.content}-${index}`]. *)
Definition item_key (item : TocItem) (index : nat) : string :=
  content item +:+ "-" +:+ pretty index.

(** [TocItemComponent], under the key its parent gave it. *)
Fixpoint TocItemComponent (item : TocItem) (level : Z) (k : string) : Li :=
  match item with
  | mkTocItem l c _ ch =>
      mkLi k (level * 20) l c
        (map_indexed
           (fun child index =>
              TocItemComponent child (level + 1) (item_key child index))
           0%nat ch)
  end.

(** What [TableOfContents] shows under its header. *)
Inductive Rendered : Type :=
  | Empty (text : string)
  | TocList (items : list Li).

(** [TableOfContents]. *)
Definition TableOfContents (toc : list TocItem) : Rendered :=
  if len toc =? 0 then Empty "No table of contents available"
  else
    TocList (map_indexed (fun item index => TocItemComponent item 0 (item_key item index))
               0%nat toc).

(** The entries of a forest, parents before children, each with its
    depth. *)
Fixpoint entries_of (depth : nat) (item : TocItem) : list (nat * TocItem) :=
  match item with
  | mkTocItem _ _ _ ch => (depth, item) :: flat_map (entries_of (S depth)) ch
  end.

Definition entries (toc : list TocItem) : list (nat * TocItem) :=
  flat_map (entries_of 0) toc.

(** The buttons of a rendered list from top to bottom, each with the
    number of [li] elements around it, the inline padding of its own [li]
    and the sum of the inline paddings of the [li] elements it sits in,
    its own included. *)
Fixpoint buttons_of (depth : nat) (outer : Z) (li : Li) : list (nat * Z * Z * Li) :=
  match li with
  | mkLi _ pad _ _ nested =>
      (depth, pad, outer + pad, li)
      :: flat_map (buttons_of (S depth) (outer + pad)) nested
  end.

Definition buttons (items : list Li) : list (nat * Z * Z * Li) :=
  flat_map (buttons_of 0 0) items.

(** Does [s] hold no hyphen? *)
Fixpoint hyphen_free (s : string) : bool :=
  match s with
  | EmptyString => true
  | String c s' => negb (Ascii.eqb c "-"%char) && hyphen_free s'
  end.

(** The items that [TableOfContents] lists, none for the empty notice. *)
Definition listed (r : Rendered) : list Li :=
  match r with
  | Empty _ => []
  | TocList items => items
  end.

End TableOfContents.

(** ** [BookLibrary] *)

Module BookLibrary.

(** The [useState] cells of one render; a book is the triple of its key,
    its title and the URI of its cover. *)
Record State : Type := mkState {
  books : list (string * string * string);
  loading : bool;
  error : option string
}.

Definition initial : State :=
  {| books := []; loading := true; error := None |}.

(** The state setters of [useState]. *)
Definition setBooks (v : list (string * string * string)) (s : State) : State :=
  mkState v (loading s) (error s).
Definition setLoading (v : bool) (s : State) : State :=
  mkState (books s) v (error s).
Definition setError (v : option string) (s : State) : State :=
  mkState (books s) (loading s) v.

(** [loadBookCovers], against the promise that [invoke("all_book_covers")]
    settles as. *)
Definition loadBookCovers (all_book_covers : completion (list (string * string * string)))
    : Act.t (S := State) unit :=
  Act.try_catch_finally
    (Act.set (setLoading true);;
     Act.set (setError None);;
     bookCovers ← Act.await all_book_covers;
     Act.set (setBooks bookCovers))
    (fun err => Act.set (setError (Some ("Failed to load books: " +:+ err))))
    (Act.set (setLoading false)).

(** The render that follows [loadBookCovers]. *)
Definition afterLoadBookCovers
    (all_book_covers : completion (list (string * string * string))) (s : State) : State :=
  snd (loadBookCovers all_book_covers s).

(** A card of the grid: its React key, the path that a click navigates
    to, the cover, the [alt] text, the title and the key shown. The
    placeholder that replaces a cover which fails to load belongs to the
    image element and is left out. *)
Record Card : Type := mkCard {
  cardKey : string;
  navigateTo : string;
  coverSrc : string;
  coverAlt : string;
  cardTitle : string;
  cardBookKey : string
}.

(** One element of [books.map(...)]. *)
Definition card (book : string * string * string) : Card :=
  let '(bookKey, bookTitle, coverUri) := book in
  mkCard bookKey ("/book/" +:+ bookKey) coverUri (bookTitle +:+ " cover") bookTitle bookKey.

(** What the component returns. *)
Inductive View : Type :=
  | LoadingView
  | ErrorView (message : string)
  | EmptyState
  | BookGrid (cards : list Card).

Definition render (s : State) : View :=
  if loading s then LoadingView
  else if truthy_opt_string (error s) then ErrorView (tmpl (error s))
  else if len (books s) =? 0 then EmptyState
  else BookGrid (map card (books s)).

End BookLibrary.

(** ** Sample data *)

Module Sample.
Import Reader.

(** A reader on page 3 of 3 of the second of two chapters, and one on
    the first page of the first. *)
Definition at_the_end : State :=
  mkState (Some "frankenstein.epub") [] "epub://frankenstein.epub/OEBPS/ch2.html"
          "Frankenstein" false None 2 3 ["OEBPS/ch1.html"; "OEBPS/ch2.html"] 1 true.

Definition at_the_start : State :=
  mkState (Some "frankenstein.epub") [] "epub://frankenstein.epub/OEBPS/ch1.html"
          "Frankenstein" false None 0 3 ["OEBPS/ch1.html"; "OEBPS/ch2.html"] 0 true.

(** A reader on page 2 of 3 with the viewer mounted. *)
Definition in_the_middle : State :=
  mkState (Some "frankenstein.epub") [] "epub://frankenstein.epub/OEBPS/ch1.html"
          "Frankenstein" false None 1 3 ["OEBPS/ch1.html"; "OEBPS/ch2.html"] 0 true.

(** A backend that knows one book, whose table of contents and spine both
    start with the first chapter. *)
Definition frankenstein_toc : list TocItem :=
  [mkTocItem "Letter 1" "OEBPS/ch1.html" 1 [];
   mkTocItem "Letter 2" "OEBPS/ch2.html" 2 []].

Definition frankenstein_spine : list string :=
  ["OEBPS/ch1.html"; "OEBPS/ch2.html"].

Definition one_book : Backend :=
  {| get_book_title := fun _ => Normal "Frankenstein";
     get_book_toc := fun _ => Normal frankenstein_toc;
     get_spine := fun _ => Normal frankenstein_spine;
     get_current_spine_index := fun _ _ => Normal None |}.

(** A parser that rejects every input. *)
Definition no_parse (saved : string) : completion JSON := Throw "SyntaxError".

(** A serializer for documents whose strings need no escaping. *)
Fixpoint stringify (v : JSON) : string :=
  match v with
  | JNull => "null"
  | JBool true => "true"
  | JBool false => "false"
  | JNum n => pretty n
  | JStr s => String "034" (s +:+ String "034" "")
  | JArr items =>
      "[" +:+
      (fix go (l : list JSON) : string :=
         match l with
         | [] => ""
         | [x] => stringify x
         | x :: rest => stringify x +:+ "," +:+ go rest
         end) items +:+ "]"
  | JObj fields =>
      "{" +:+
      (fix go (l : list (string * JSON)) : string :=
         match l with
         | [] => ""
         | [(k, x)] => String "034" (k +:+ String "034" "") +:+ ":" +:+ stringify x
         | (k, x) :: rest =>
             String "034" (k +:+ String "034" "") +:+ ":" +:+ stringify x +:+ "," +:+ go rest
         end) fields +:+ "}"
  end.

(** The position of a reader on the second page of the first chapter, and
    a parser that recognizes its serialization and nothing else. *)
Definition saved_position : JSON :=
  ReadingPosition "frankenstein.epub" "OEBPS/ch1.html" 1 1700000000000.

Definition parse_saved_position (saved : string) : completion JSON :=
  if String.eqb saved (stringify saved_position) then Normal saved_position
  else Throw "SyntaxError".


(** Documents of the content service: the book of the scenario, a book
    whose spine lists one chapter twice, and a book with a [#] in a file
    name. *)
Definition two_chapters : Service.EpubDocument :=
  Service.build_document "frankenstein.epub" "Frankenstein" None
    {[ "ch1" := ("OEBPS/ch1.html", "application/xhtml+xml");
       "ch2" := ("OEBPS/ch2.html", "application/xhtml+xml") ]}
    ["OEBPS/ch1.html"; "OEBPS/ch2.html"] frankenstein_toc.

Definition chapter_twice : Service.EpubDocument :=
  Service.build_document "twice.epub" "Twice" None
    {[ "ch1" := ("OEBPS/ch1.html", "application/xhtml+xml") ]}
    ["OEBPS/ch1.html"; "OEBPS/ch1.html"] [].

Definition hash_in_name : Service.EpubDocument :=
  Service.build_document "hash.epub" "Hash" None
    {[ "ch1" := ("OEBPS/ch#1.html", "application/xhtml+xml") ]}
    ["OEBPS/ch#1.html"] [].

(** A normalization that leaves paths as they are. *)
Definition as_is (path : string) : string := path.

(** A resolution of references: a fragment replaces the fragment of the
    location, a path replaces its last segment. *)
Fixpoint up_to_last_slash (s : string) : string :=
  match s with
  | EmptyString => EmptyString
  | String c s' =>
      match up_to_last_slash s' with
      | EmptyString => if Ascii.eqb c "/" then String c EmptyString else EmptyString
      | String _ _ as kept => String c kept
      end
  end.

Definition sibling (base href : string) : string :=
  if starts_with "#" href then Service.strip_fragment base +:+ href
  else up_to_last_slash base +:+ href.

Definition chapter_one : Service.Script.Frame :=
  Service.Script.mkFrame "epub://frankenstein.epub/OEBPS/chapter1.html" [].

(** A directory with one archive that loads, one that does not, and a
    file that is no archive; a file is its title when it is well formed. *)
Definition shelf : gmap string (option string) :=
  {[ "frankenstein.epub" := Some "Frankenstein";
     "broken.epub" := None;
     "notes.txt" := Some "notes" ]}.

Definition load_titled (name : string) (file : option string)
    : string + Service.EpubDocument :=
  match file with
  | Some ttl => inr (Service.build_document name ttl None ∅ [] [])
  | None => inl "malformed container"
  end.

(** The reader of the one book after it has loaded, and a session in
    which the viewer mounts, reports a single page, and the reader goes
    forward twice and back once. *)
Definition loaded : Reader.World :=
  Reader.run stringify no_parse one_book
    (Reader.mounted (Some "frankenstein.epub") ∅) [Reader.EvLoadBook].

Definition there_and_back : list Reader.Event :=
  [Reader.EvIframeRef true;
   Reader.EvPaginationUpdate 0 1 1700000000000;
   Reader.EvNextPage;
   Reader.EvNextPage;
   Reader.EvPreviousPage].

(** A reader on the only page of the first of two chapters. *)
Definition end_of_first_chapter : Reader.State :=
  Reader.mkState (Some "frankenstein.epub") [] "epub://frankenstein.epub/OEBPS/ch1.html"
    "Frankenstein" false None 0 1 ["OEBPS/ch1.html"; "OEBPS/ch2.html"] 0 true.

(** A backend whose table of contents cannot be read. *)
Definition no_toc : Backend :=
  {| get_book_title := fun _ => Normal "Frankenstein";
     get_book_toc := fun _ => Throw "Book not found";
     get_spine := fun _ => Normal frankenstein_spine;
     get_current_spine_index := fun _ _ => Normal None |}.

(** The position of a reader of another book, and a parser that
    recognizes its serialization and nothing else. *)
Definition foreign_position : JSON :=
  ReadingPosition "dracula.epub" "OEBPS/part3.html" 4 1700000000000.

Definition parse_foreign_position (saved : string) : completion JSON :=
  if String.eqb saved (stringify foreign_position) then Normal foreign_position
  else Throw "SyntaxError".

(** An opener that cannot reach the system browser, a link message as the
    rendered content posts it, and the same message from a web page. *)
Definition no_browser (url : string) : completion unit := Throw "no handler".

Definition link_message : IframeViewer.MessageEvent :=
  IframeViewer.mkMessageEvent
    (Some (JObj [("type", JStr "epub-external-link");
                 ("url", JStr "https://example.com/")]))
    "null".

(** A table of contents with a part of two chapters, the second with a
    section, and an appendix that points into the first chapter again. *)
Definition nested_toc : list TocItem :=
  [mkTocItem "Part One" "OEBPS/part1.html" 1
     [mkTocItem "Chapter 1" "OEBPS/ch1.html" 2 [];
      mkTocItem "Chapter 2" "OEBPS/ch2.html" 3
        [mkTocItem "Section 2.1" "OEBPS/ch2.html#s1" 4 []]];
   mkTocItem "Appendix" "OEBPS/ch1.html" 5 []].

(** The link message of a web page, and a link message without a URL. *)
Definition web_page_message : IframeViewer.MessageEvent :=
  IframeViewer.mkMessageEvent
    (Some (JObj [("type", JStr "epub-external-link");
                 ("url", JStr "https://example.com/")]))
    "https://example.org".

Definition message_without_url : IframeViewer.MessageEvent :=
  IframeViewer.mkMessageEvent (Some (JObj [("type", JStr "epub-external-link")])) "null".

(** A library view that shows the error of a failed load, and the covers
    that a second attempt returns. *)
Definition failed_library : BookLibrary.State :=
  BookLibrary.afterLoadBookCovers (Throw "backend unavailable") BookLibrary.initial.

Definition one_cover : list (string * string * string) :=
  [("frankenstein.epub", "Frankenstein", "epub://frankenstein.epub/OEBPS/cover.jpg")].

End Sample.
(** * Properties *)

(** Expose the state passing of a [try]/[catch]/[finally] body. *)
Ltac unfold_act :=
  unfold Act.try_catch_finally;
  unfold mbind, act_bind, Act.bind, Act.await, Act.set, mret, act_ret, Act.ret.

(** ** Page turning in the revised reader *)

Section PageTurning.
Import Reader Sample.

(** C2. Pagination is clamped to the content bounds. On the last page of
    the last chapter ([currentPage >= totalPages - 1] and
    [currentSpineIndex >= spine.length - 1]) [handleNextPage] leaves the
    whole state, hence [currentContent], [currentSpineIndex] and
    [currentPage], as it was and sends no message; on the first page of
    the first chapter ([currentPage = 0] and [currentSpineIndex = 0])
    [handlePreviousPage] does the same. *)
Theorem pagination_clamped (s : State) :
  (currentPage s >= totalPages s - 1 ->
   currentSpineIndex s >= len (spine s) - 1 ->
   handleNextPage s = (s, []))
  /\ (currentPage s = 0 ->
      currentSpineIndex s = 0 ->
      handlePreviousPage s = (s, [])).
Proof.
  split.
  - intros Hpage Hidx. unfold handleNextPage.
    destruct (Z.geb_spec (currentPage s) (totalPages s - 1)) as [_ | Hlt]; [| lia].
    destruct (Z.ltb_spec (currentSpineIndex s) (len (spine s) - 1)) as [Hlt | _]; [lia |].
    reflexivity.
  - intros Hpage Hidx. unfold handlePreviousPage.
    rewrite Hpage, Hidx. reflexivity.
Qed.

Lemma pagination_clamped_witness :
  handleNextPage at_the_end = (at_the_end, [])
  /\ handlePreviousPage at_the_start = (at_the_start, []).
Proof.
  split.
  - apply (proj1 (pagination_clamped at_the_end)); vm_compute; discriminate.
  - apply (proj2 (pagination_clamped at_the_start)); reflexivity.
Defined.

(** C4. When the reader asks for a page movement inside the chapter
    (next with [currentPage < totalPages - 1], previous with
    [currentPage > 0]) the state is left alone, and what is handed to the
    rendered content is the one object [{type: "pagination-next"}],
    respectively [{type: "pagination-previous"}], with the field [type]
    and no other; nothing else is sent, and nothing at all while no viewer
    is mounted. *)
Theorem in_chapter_message (s : State) :
  (currentPage s < totalPages s - 1 ->
   handleNextPage s =
     (s, if iframeRef s then [JObj [("type", JStr "pagination-next")]] else []))
  /\ (currentPage s > 0 ->
      handlePreviousPage s =
        (s, if iframeRef s then [JObj [("type", JStr "pagination-previous")]] else [])).
Proof.
  split; intros Hpage.
  - unfold handleNextPage.
    destruct (Z.geb_spec (currentPage s) (totalPages s - 1)) as [Hge | _]; [lia |].
    reflexivity.
  - unfold handlePreviousPage.
    destruct (Z.eqb_spec (currentPage s) 0) as [Heq | _]; [lia |].
    reflexivity.
Qed.

Lemma in_chapter_message_witness :
  handleNextPage in_the_middle
    = (in_the_middle, [JObj [("type", JStr "pagination-next")]])
  /\ handlePreviousPage in_the_middle
    = (in_the_middle, [JObj [("type", JStr "pagination-previous")]]).
Proof.
  split.
  - apply (proj1 (in_chapter_message in_the_middle)); reflexivity.
  - apply (proj2 (in_chapter_message in_the_middle)); reflexivity.
Defined.

End PageTurning.

(** ** Strings *)

Section Strings.

Lemma append_inj_r (p a b : string) : p +:+ a = p +:+ b -> a = b.
Proof.
  induction p as [| c p IH]; simpl; [trivial |].
  intros H. injection H as H. auto.
Qed.

Lemma append_assoc (a b c : string) : (a +:+ b) +:+ c = a +:+ (b +:+ c).
Proof.
  induction a as [| x a IH]; [reflexivity |].
  change (String x ((a +:+ b) +:+ c) = String x (a +:+ (b +:+ c))).
  now rewrite IH.
Qed.

Lemma starts_with_append (p s : string) : starts_with p (p +:+ s) = true.
Proof.
  induction p as [| c p IH]; simpl; [reflexivity |].
  now rewrite Ascii.eqb_refl.
Qed.

Lemma drop_chars_append (p s : string) : drop_chars (String.length p) (p +:+ s) = s.
Proof. induction p as [| c p IH]; simpl; [reflexivity | exact IH]. Qed.

(** Replacing the first occurrence of a prefix removes the prefix. *)
Lemma replace_prefix (p s : string) : replace p "" (p +:+ s) = s.
Proof.
  destruct p as [| c p].
  - destruct s; reflexivity.
  - change (replace (String c p) "" (String c p +:+ s))
      with (if starts_with (String c p) (String c p +:+ s)
            then "" +:+ drop_chars (String.length (String c p)) (String c p +:+ s)
            else String c (replace (String c p) "" (p +:+ s))).
    rewrite starts_with_append. simpl. apply drop_chars_append.
Qed.

End Strings.

(** ** The default content of the two readers *)

Section DefaultContent.

Lemma index_0 {A : Type} (l : list A) : index l 0 = head l.
Proof. destruct l; reflexivity. Qed.

Lemma len_pos {A : Type} (l : list A) : (len l >? 0) = match l with [] => false | _ => true end.
Proof.
  destruct l as [| x l]; [reflexivity |].
  unfold len. simpl length. destruct (Z.gtb_spec (Z.of_nat (S (length l))) 0); [reflexivity | lia].
Qed.

(** What the original reader shows after [loadBook] on a fresh mount when
    the backend answers: the first entry of the table of contents. *)
Lemma original_default (backend : Backend) (key : option string)
    (ttl : string) (tocData : list TocItem) :
  get_book_title backend key = Normal ttl ->
  get_book_toc backend key = Normal tocData ->
  ReaderV1.currentContent (ReaderV1.afterLoadBook backend (ReaderV1.initial key))
  = match head tocData with
    | Some first => "epub://" +:+ tmpl key +:+ "/" +:+ content first
    | None => ""
    end.
Proof.
  intros Httl Htoc.
  unfold ReaderV1.afterLoadBook, ReaderV1.loadBook. unfold_act.
  cbn [ReaderV1.bookKey ReaderV1.initial]. rewrite Httl, Htoc.
  rewrite len_pos. destruct tocData as [| first rest]; reflexivity.
Qed.

(** What the revised reader shows after [loadBook] on a fresh mount when
    the backend answers and no position is stored: the first entry of the
    spine. *)
Lemma revised_default (JSON_parse : string -> completion JSON) (backend : Backend)
    (key : option string) (ls : gmap string string)
    (ttl : string) (tocData : list TocItem) (spineData : list string) :
  get_book_title backend key = Normal ttl ->
  get_book_toc backend key = Normal tocData ->
  get_spine backend key = Normal spineData ->
  ls !! Reader.reading_key key = None ->
  Reader.currentContent (Reader.afterLoadBook JSON_parse backend (Reader.initial key) ls)
  = match head spineData with
    | Some first => "epub://" +:+ tmpl key +:+ "/" +:+ first
    | None => ""
    end.
Proof.
  intros Httl Htoc Hspine Hnone.
  unfold Reader.afterLoadBook, Reader.loadBook. unfold_act.
  cbn [Reader.bookKey Reader.initial]. rewrite Httl, Htoc, Hspine.
  assert (Reader.loadReadingPosition JSON_parse key ls = Normal JNull) as ->.
  { unfold Reader.loadReadingPosition. rewrite Hnone.
    destruct (negb (truthy_opt_string key)); reflexivity. }
  cbn [truthy andb]. rewrite len_pos, index_0.
  destruct spineData as [| first rest]; reflexivity.
Qed.

(** C10. With no saved reading position, the original reader takes its
    initial content from [toc[0].content] and the revised reader from
    [spine[0]]; after [loadBook] on a fresh mount against the same backend
    the two show the same content exactly when the content path of the
    first table-of-contents entry equals the first spine entry (both being
    absent counts as equal), and different content otherwise. *)
Theorem default_content_agreement (JSON_parse : string -> completion JSON)
    (backend : Backend) (key : option string) (ls : gmap string string)
    (ttl : string) (tocData : list TocItem) (spineData : list string) :
  get_book_title backend key = Normal ttl ->
  get_book_toc backend key = Normal tocData ->
  get_spine backend key = Normal spineData ->
  ls !! Reader.reading_key key = None ->
  ReaderV1.currentContent (ReaderV1.afterLoadBook backend (ReaderV1.initial key))
  = Reader.currentContent (Reader.afterLoadBook JSON_parse backend (Reader.initial key) ls)
  <-> content <$> head tocData = head spineData.
Proof.
  intros Httl Htoc Hspine Hnone.
  rewrite (original_default backend key ttl tocData Httl Htoc).
  rewrite (revised_default JSON_parse backend key ls ttl tocData spineData
             Httl Htoc Hspine Hnone).
  destruct (head tocData) as [t |], (head spineData) as [p |]; cbn [fmap option_fmap option_map].
  - split.
    + intros H. apply append_inj_r in H. apply append_inj_r in H.
      apply append_inj_r in H. now rewrite H.
    + intros [= ->]. reflexivity.
  - split; discriminate.
  - split; discriminate.
  - split; reflexivity.
Qed.

Lemma default_content_agreement_witness :
  ReaderV1.currentContent
    (ReaderV1.afterLoadBook Sample.one_book (ReaderV1.initial (Some "frankenstein.epub")))
  = Reader.currentContent
      (Reader.afterLoadBook Sample.no_parse Sample.one_book
         (Reader.initial (Some "frankenstein.epub")) ∅)
  <-> content <$> head Sample.frankenstein_toc = head Sample.frankenstein_spine.
Proof.
  apply (default_content_agreement Sample.no_parse Sample.one_book
           (Some "frankenstein.epub") ∅ "Frankenstein"
           Sample.frankenstein_toc Sample.frankenstein_spine);
    reflexivity.
Defined.

End DefaultContent.

(** ** Saving and resuming the reading position *)

Section Persistence.
Import Reader.

Variable JSON_stringify : JSON -> string.
Variable JSON_parse : string -> completion JSON.
Variable backend : Backend.

Lemma truthy_epub_uri (key : option string) (path : string) :
  truthy_string (epub_uri key path) = true.
Proof. reflexivity. Qed.

(** The content path that [saveReadingPosition] computes for a content URI
    of the book. *)
Lemma saved_content_path (key : option string) (rest : string) :
  replace ("epub://" +:+ tmpl key +:+ "/") "" (epub_uri key rest) = rest.
Proof.
  unfold epub_uri.
  replace ("epub://" +:+ tmpl key +:+ "/" +:+ rest)
    with (("epub://" +:+ tmpl key +:+ "/") +:+ rest).
  - apply replace_prefix.
  - now rewrite !append_assoc.
Qed.

(** What [saveReadingPosition] does in a render that shows a content URI
    of its book. *)
Lemma save_on_book_content (s : State) (rest : string) (now : Z) (ls : gmap string string) :
  currentContent s = epub_uri (bookKey s) rest ->
  saveReadingPosition JSON_stringify s now ls
  = if truthy_opt_string (bookKey s)
    then <[reading_key (bookKey s) :=
             JSON_stringify (ReadingPosition (tmpl (bookKey s)) rest (currentPage s) now)]> ls
    else ls.
Proof.
  intros Hcontent. unfold saveReadingPosition.
  rewrite Hcontent, truthy_epub_uri, saved_content_path.
  destruct (truthy_opt_string (bookKey s)); reflexivity.
Qed.

(** [loadBook] resumes from a stored position of its own book. *)
Lemma resume_content (s : State) (ls : gmap string string) (saved : string)
    (path : string) (page stamp : Z) (ttl : string) (tocData : list TocItem)
    (spineData : list string) :
  truthy_opt_string (bookKey s) = true ->
  ls !! reading_key (bookKey s) = Some saved ->
  saved <> "" ->
  JSON_parse saved = Normal (ReadingPosition (tmpl (bookKey s)) path page stamp) ->
  get_book_title backend (bookKey s) = Normal ttl ->
  get_book_toc backend (bookKey s) = Normal tocData ->
  get_spine backend (bookKey s) = Normal spineData ->
  currentContent (afterLoadBook JSON_parse backend s ls) = epub_uri (bookKey s) path.
Proof.
  intros Hkey Hls Hsaved Hparse Httl Htoc Hspine.
  unfold afterLoadBook, loadBook. unfold_act.
  rewrite Httl, Htoc, Hspine.
  assert (loadReadingPosition JSON_parse (bookKey s) ls
          = Normal (ReadingPosition (tmpl (bookKey s)) path page stamp)) as ->.
  { unfold loadReadingPosition. rewrite Hkey, Hls. cbn [negb].
    destruct saved; [congruence |]. cbn [truthy_string negb]. now rewrite Hparse. }
  destruct (bookKey s) as [k |] eqn:Ek; [| discriminate].
  cbn [truthy ReadingPosition prop assoc String.eqb Ascii.eqb Bool.eqb
       strict_eq_string tmpl andb].
  rewrite String.eqb_refl.
  cbn [tmpl_value prop assoc String.eqb Ascii.eqb Bool.eqb to_string].
  destruct (get_current_spine_index backend (Some k) (Some (JStr path)))
    as [[i |] | e]; reflexivity.
Qed.

(** C8. Saving and resuming round-trips the content URI. For every
    [bookKey] and every [currentContent] that begins with
    [`epub://${bookKey}/`], the position that [saveReadingPosition] stores
    (it stores one whenever [bookKey] is set) has as [contentPath]
    [currentContent] without that prefix; the URI
    [`epub://${bookKey}/${contentPath}`] that [loadBook] rebuilds from the
    stored object is [currentContent]; and a [loadBook] that reads the
    stored position back (the parser returning the object that was
    serialized, the backend answering) shows [currentContent] again. *)
Theorem position_round_trip (s : State) (rest : string) (now : Z)
    (ls : gmap string string) :
  currentContent s = epub_uri (bookKey s) rest ->
  let position := ReadingPosition (tmpl (bookKey s)) rest (currentPage s) now in
  let ls' := saveReadingPosition JSON_stringify s now ls in
  ls' = (if truthy_opt_string (bookKey s)
         then <[reading_key (bookKey s) := JSON_stringify position]> ls
         else ls)
  /\ "epub://" +:+ tmpl (bookKey s) +:+ "/" +:+ tmpl_value (prop position "contentPath")
     = currentContent s
  /\ forall (s' : State) (ttl : string) (tocData : list TocItem) (spineData : list string),
       bookKey s' = bookKey s ->
       truthy_opt_string (bookKey s) = true ->
       JSON_stringify position <> "" ->
       JSON_parse (JSON_stringify position) = Normal position ->
       get_book_title backend (bookKey s) = Normal ttl ->
       get_book_toc backend (bookKey s) = Normal tocData ->
       get_spine backend (bookKey s) = Normal spineData ->
       currentContent (afterLoadBook JSON_parse backend s' ls') = currentContent s.
Proof.
  intros Hcontent position ls'.
  assert (ls' = if truthy_opt_string (bookKey s)
                then <[reading_key (bookKey s) := JSON_stringify position]> ls
                else ls) as Hls'
    by (apply save_on_book_content; exact Hcontent).
  split; [exact Hls' |]. split.
  - rewrite Hcontent. reflexivity.
  - intros s' ttl tocData spineData Hsame Hkey Hnonempty Hparse Httl Htoc Hspine.
    rewrite Hcontent, <- Hsame.
    apply (resume_content s' ls' (JSON_stringify position) rest (currentPage s) now
             ttl tocData spineData); rewrite ?Hsame; try assumption.
    rewrite Hls', Hkey. apply lookup_insert_eq.
Qed.

End Persistence.

Lemma position_round_trip_witness :
  let s := Sample.in_the_middle in
  let ls' := Reader.saveReadingPosition Sample.stringify s 1700000000000 ∅ in
  ls' = <[ "reading-frankenstein.epub" := Sample.stringify Sample.saved_position ]> ∅
  /\ Reader.currentContent
       (Reader.afterLoadBook Sample.parse_saved_position Sample.one_book
          (Reader.initial (Some "frankenstein.epub")) ls')
     = "epub://frankenstein.epub/OEBPS/ch1.html".
Proof.
  intros s ls'.
  destruct (position_round_trip Sample.stringify Sample.parse_saved_position
              Sample.one_book s "OEBPS/ch1.html" 1700000000000 ∅ eq_refl)
    as (Hsave & _ & Hload).
  split; [exact Hsave |].
  apply (Hload (Reader.initial (Some "frankenstein.epub")) "Frankenstein"
           Sample.frankenstein_toc Sample.frankenstein_spine);
    try reflexivity.
  vm_compute; discriminate.
Defined.

(** ** Reading a stored position *)

Section LoadReadingPosition.
Import Reader.

Variable JSON_parse : string -> completion JSON.

(** C9. [loadReadingPosition] is total and never raises: it always
    returns. For the string stored under [`reading-${bookKey}`] it returns
    the parsed value when the string is valid JSON (a text that parses, which
    is never the empty text), and it returns [null] rather than throwing
    when the key is absent, when [bookKey] is undefined, and when the stored
    string is not valid JSON ([JSON.parse] throws on it, or it is empty).
    [bookKey] is the route parameter, undefined or a non-empty string; the
    guard [!bookKey] would treat an empty string as undefined. *)
Theorem loadReadingPosition_total (key : option string) (ls : gmap string string) :
  (exists v, loadReadingPosition JSON_parse key ls = Normal v)
  /\ (key = None \/ key = Some "" -> loadReadingPosition JSON_parse key ls = Normal JNull)
  /\ (ls !! reading_key key = None -> loadReadingPosition JSON_parse key ls = Normal JNull)
  /\ (forall saved,
        ls !! reading_key key = Some saved ->
        saved = "" \/ (exists e, JSON_parse saved = Throw e) ->
        loadReadingPosition JSON_parse key ls = Normal JNull)
  /\ (forall k saved v,
        key = Some k -> k <> "" ->
        ls !! reading_key key = Some saved -> saved <> "" ->
        JSON_parse saved = Normal v ->
        loadReadingPosition JSON_parse key ls = Normal v).
Proof.
  unfold loadReadingPosition. repeat split.
  - destruct (negb (truthy_opt_string key)); [eauto |].
    destruct (ls !! reading_key key) as [saved |]; [| eauto].
    destruct (negb (truthy_string saved)); [eauto |].
    destruct (JSON_parse saved); eauto.
  - intros [-> | ->]; reflexivity.
  - intros ->. destruct (negb (truthy_opt_string key)); reflexivity.
  - intros saved -> Hbad. destruct (negb (truthy_opt_string key)); [reflexivity |].
    destruct Hbad as [-> | [e ->]]; [reflexivity |].
    destruct (negb (truthy_string saved)); reflexivity.
  - intros k saved v -> Hk -> Hsaved ->.
    destruct k; [congruence |]. destruct saved; [congruence |]. reflexivity.
Qed.

End LoadReadingPosition.

Lemma loadReadingPosition_total_witness :
  Reader.loadReadingPosition Sample.parse_saved_position (Some "frankenstein.epub")
    {[ "reading-frankenstein.epub" := Sample.stringify Sample.saved_position ]}
  = Normal Sample.saved_position.
Proof.
  refine (proj2 (proj2 (proj2 (proj2
            (loadReadingPosition_total Sample.parse_saved_position
               (Some "frankenstein.epub")
               {[ "reading-frankenstein.epub" := Sample.stringify Sample.saved_position ]}))))
            "frankenstein.epub" (Sample.stringify Sample.saved_position)
            Sample.saved_position eq_refl _ _ _ _).
  - discriminate.
  - reflexivity.
  - vm_compute; discriminate.
  - reflexivity.
Defined.

(** ** What the reader persists *)

Section Persisted.
Import Reader.

Variable JSON_stringify : JSON -> string.
Variable JSON_parse : string -> completion JSON.
Variable backend : Backend.

Abbreviation step := (step JSON_stringify JSON_parse backend).
Abbreviation run := (run JSON_stringify JSON_parse backend).

(** [saveReadingPosition] writes at most one entry, and that entry is a
    reading position of the render's book at the render's page. *)
Lemma save_writes_position (s : State) (now : Z) (ls : gmap string string) (key : string) :
  saveReadingPosition JSON_stringify s now ls !! key <> ls !! key ->
  exists k path,
    bookKey s = Some k
    /\ key = "reading-" +:+ k
    /\ saveReadingPosition JSON_stringify s now ls !! key
       = Some (JSON_stringify (ReadingPosition k path (currentPage s) now)).
Proof.
  unfold saveReadingPosition.
  destruct (negb (truthy_opt_string (bookKey s)) || negb (truthy_string (currentContent s)))
    eqn:Hguard; [congruence |].
  intros Hchanged.
  destruct (bookKey s) as [k |] eqn:Ek; [| discriminate].
  destruct (decide (reading_key (Some k) = key)) as [<- | Hne].
  - exists k, (replace ("epub://" +:+ k +:+ "/") "" (currentContent s)).
    repeat split. apply lookup_insert_eq.
  - rewrite lookup_insert_ne in Hchanged by exact Hne. congruence.
Qed.

(** No handler but [handlePaginationUpdate] touches the store. *)
Lemma step_store (w : World) (ev : Event) :
  localStorage (step w ev)
  = match ev with
    | EvPaginationUpdate _ _ now => saveReadingPosition JSON_stringify (state w) now (localStorage w)
    | _ => localStorage w
    end.
Proof.
  destruct ev; cbn [Reader.step]; try reflexivity.
  - destruct (handleNextPage (state w)); reflexivity.
  - destruct (handlePreviousPage (state w)); reflexivity.
Qed.

(** [loadBook] leaves the page alone. *)
Lemma loadBook_currentPage (s : State) (ls : gmap string string) :
  currentPage (afterLoadBook JSON_parse backend s ls) = currentPage s.
Proof.
  unfold afterLoadBook, loadBook. unfold_act.
  repeat case_match; simplify_eq; reflexivity.
Qed.

Lemma handleNextPage_currentPage (s : State) :
  0 <= currentPage s -> 0 <= currentPage (handleNextPage s).1.
Proof. unfold handleNextPage. repeat case_match; cbn; lia. Qed.

Lemma handlePreviousPage_currentPage (s : State) :
  0 <= currentPage s -> 0 <= currentPage (handlePreviousPage s).1.
Proof. unfold handlePreviousPage. repeat case_match; cbn; lia. Qed.

(** The page of the reader stays at or above zero as long as the rendered
    content reports no negative page. *)
Lemma step_page_from_zero (w : World) (ev : Event) :
  reports_page_from_zero ev = true ->
  0 <= currentPage (state w) ->
  0 <= currentPage (state (step w ev)).
Proof.
  intros Hev Hpage. destruct ev as [| page total now | | | c | b]; cbn [Reader.step].
  - cbn [state]. unfold bookKeyEffect.
    destruct (negb (truthy_opt_string (bookKey (state w)))); [exact Hpage |].
    now rewrite loadBook_currentPage.
  - cbn in Hev |- *. lia.
  - pose proof (handleNextPage_currentPage (state w) Hpage) as H.
    destruct (handleNextPage (state w)); exact H.
  - pose proof (handlePreviousPage_currentPage (state w) Hpage) as H.
    destruct (handlePreviousPage (state w)); exact H.
  - cbn [state]. unfold handleTocItemClick. repeat case_match; cbn; lia.
  - exact Hpage.
Qed.

Lemma run_page_from_zero (evs : list Event) (w : World) :
  forallb reports_page_from_zero evs = true ->
  0 <= currentPage (state w) ->
  0 <= currentPage (state (run w evs)).
Proof.
  revert w. induction evs as [| ev evs IH]; intros w Hevs Hpage; [exact Hpage |].
  cbn in Hevs. apply andb_prop in Hevs as [Hev Hevs].
  cbn [Reader.run fold_left]. apply IH; [exact Hevs |].
  now apply step_page_from_zero.
Qed.

(** The route parameter does not change while the reader is mounted. *)
Lemma loadBook_bookKey (s : State) (ls : gmap string string) :
  bookKey (afterLoadBook JSON_parse backend s ls) = bookKey s.
Proof.
  unfold afterLoadBook, loadBook. unfold_act.
  repeat case_match; simplify_eq; reflexivity.
Qed.

Lemma step_bookKey (w : World) (ev : Event) :
  bookKey (state (step w ev)) = bookKey (state w).
Proof.
  destruct ev as [| page total now | | | c | b]; cbn [Reader.step].
  - cbn [state]. unfold bookKeyEffect.
    destruct (negb (truthy_opt_string (bookKey (state w)))); [reflexivity |].
    apply loadBook_bookKey.
  - reflexivity.
  - unfold handleNextPage. repeat case_match; simplify_eq; reflexivity.
  - unfold handlePreviousPage. repeat case_match; simplify_eq; reflexivity.
  - cbn [state]. unfold handleTocItemClick. repeat case_match; reflexivity.
  - reflexivity.
Qed.

Lemma run_bookKey (evs : list Event) (w : World) :
  bookKey (state (run w evs)) = bookKey (state w).
Proof.
  revert w. induction evs as [| ev evs IH]; intros w; [reflexivity |].
  cbn [Reader.run fold_left]. etransitivity; [apply IH | apply step_bookKey].
Qed.

(** Whatever a mounted reader writes to the store while it handles events
    is, for the string [bookKey] of the reader, the serialization of an
    object with the fields [bookKey] (that string), [contentPath] (a
    string), [page] and [timestamp], in this order and no other, written
    under the key [`reading-${bookKey}`]. [page] is a copy of the reader's
    [currentPage] in the render that saves, whatever was reported; it is
    not negative when no event so far has reported a negative page. *)
Theorem persisted_position_shape (key0 : option string) (ls0 : gmap string string)
    (evs : list Event) (ev : Event) (key : string) :
  let w := run (mounted key0 ls0) evs in
  localStorage (step w ev) !! key <> localStorage w !! key ->
  exists k path stamp,
    key0 = Some k
    /\ key = "reading-" +:+ k
    /\ localStorage (step w ev) !! key
       = Some (JSON_stringify
                 (JObj [("bookKey", JStr k); ("contentPath", JStr path);
                        ("page", JNum (currentPage (state w))); ("timestamp", JNum stamp)]))
    /\ (forallb reports_page_from_zero evs = true -> 0 <= currentPage (state w)).
Proof.
  intros w Hchanged. rewrite step_store in Hchanged |- *.
  destruct ev as [| page total now | | | c | b]; try congruence.
  destruct (save_writes_position (state w) now (localStorage w) key Hchanged)
    as (k & path & Hk & Hkey & Hval).
  exists k, path, now. repeat split; try assumption.
  - rewrite <- Hk. subst w. now rewrite run_bookKey.
  - intros Hevs. apply run_page_from_zero; [exact Hevs | reflexivity].
Qed.

End Persisted.

Lemma persisted_position_shape_witness :
  let w := Reader.run Sample.stringify Sample.no_parse Sample.one_book
             (Reader.mounted (Some "frankenstein.epub") ∅)
             [Reader.EvLoadBook; Reader.EvPaginationUpdate 1 3 1700000000000] in
  let w' := Reader.step Sample.stringify Sample.no_parse Sample.one_book w
              (Reader.EvPaginationUpdate 2 3 1700000000001) in
  exists k path stamp,
    Reader.localStorage w' !! ("reading-" +:+ k)
    = Some (Sample.stringify
              (JObj [("bookKey", JStr k); ("contentPath", JStr path);
                     ("page", JNum (Reader.currentPage (Reader.state w)));
                     ("timestamp", JNum stamp)]))
    /\ 0 <= Reader.currentPage (Reader.state w).
Proof.
  intros w w'.
  destruct (persisted_position_shape Sample.stringify Sample.no_parse Sample.one_book
              (Some "frankenstein.epub") ∅
              [Reader.EvLoadBook; Reader.EvPaginationUpdate 1 3 1700000000000]
              (Reader.EvPaginationUpdate 2 3 1700000000001)
              "reading-frankenstein.epub")
    as (k & path & stamp & _ & Hkey & Hval & Hpage).
  - vm_compute. discriminate.
  - exists k, path, stamp. split.
    + rewrite <- Hkey. exact Hval.
    + apply Hpage. reflexivity.
Defined.


(** ** The content service: navigation *)

Section SpineIndex.
Import Service.

Variable normalize : string -> string.

(** [spineIndexOf] returns the first matching index. *)
Lemma spineIndexOf_Some (doc : EpubDocument) (q : string) (j : nat) :
  spineIndexOf normalize doc q = Some j
  <-> exists e, spine doc !! j = Some e
             /\ normalize e = normalize (strip_fragment q)
             /\ forall j' e', spine doc !! j' = Some e' -> (j' < j)%nat ->
                  normalize e' <> normalize (strip_fragment q).
Proof.
  unfold spineIndexOf, spineOf. split.
  - intros H. apply fmap_Some in H as [[j0 e] [Hfind Hj]]. cbn in Hj. subst j0.
    apply list_find_Some in Hfind. exists e. exact Hfind.
  - intros (e & Hfind). apply fmap_Some. exists (j, e). split; [| reflexivity].
    apply list_find_Some. exact Hfind.
Qed.

Lemma spineIndexOf_None (doc : EpubDocument) (q : string) :
  spineIndexOf normalize doc q = None
  <-> forall e, e ∈ spine doc -> normalize e <> normalize (strip_fragment q).
Proof.
  unfold spineIndexOf, spineOf. rewrite fmap_None, list_find_None, Forall_forall.
  reflexivity.
Qed.

(** Some entry matches whenever one does at index [i]: the search stops at
    the first, which is at [i] or before. *)
Lemma spineIndexOf_upto (doc : EpubDocument) (q e : string) (i : nat) :
  spine doc !! i = Some e ->
  normalize e = normalize (strip_fragment q) ->
  exists j, spineIndexOf normalize doc q = Some j /\ (j <= i)%nat.
Proof.
  intros Hi He.
  destruct (spineIndexOf normalize doc q) as [j |] eqn:Hfind.
  - exists j. split; [reflexivity |].
    apply spineIndexOf_Some in Hfind as (e' & _ & _ & Hfirst).
    destruct (decide (j <= i)%nat) as [Hle | Hgt]; [exact Hle |].
    exfalso. apply (Hfirst i e Hi); [lia | exact He].
  - exfalso. pose proof (proj1 (spineIndexOf_None doc q) Hfind) as Hnone.
    apply (Hnone e); [| exact He]. apply list_elem_of_lookup. eauto.
Qed.

(** C1, as the service contract has it. For a document [doc] and a valid
    index [i] whose spine path [p] carries no fragment, [spineIndexOf(doc, p)]
    returns the index of the first spine entry whose normalized path equals
    the normalized [p]; that index is at most [i], and it is [i] when no
    earlier entry has the same normalized path. For any content path,
    [spineIndexOf] returns [None] exactly when no spine entry matches the
    path with its fragment stripped. *)
Theorem spineIndexOf_literal_path (doc : EpubDocument) (i : nat) (p q : string) :
  (spine doc !! i = Some p ->
   strip_fragment p = p ->
   (exists j e,
      spineIndexOf normalize doc p = Some j /\ (j <= i)%nat
      /\ spine doc !! j = Some e /\ normalize e = normalize p
      /\ forall j' e', spine doc !! j' = Some e' -> (j' < j)%nat ->
           normalize e' <> normalize p)
   /\ ((forall j' e', spine doc !! j' = Some e' -> (j' < i)%nat ->
          normalize e' <> normalize p) ->
       spineIndexOf normalize doc p = Some i))
  /\ (spineIndexOf normalize doc q = None
      <-> forall e, e ∈ spine doc -> normalize e <> normalize (strip_fragment q)).
Proof.
  split; [| apply spineIndexOf_None].
  intros Hi Hp.
  destruct (spineIndexOf_upto doc p p i Hi) as (j & Hj & Hle); [now rewrite Hp |].
  pose proof Hj as Hfind. apply spineIndexOf_Some in Hfind as (e & He & Hnorm & Hfirst).
  rewrite Hp in Hnorm, Hfirst. split.
  - exists j, e. repeat split; assumption.
  - intros Hunique. rewrite Hj. f_equal.
    destruct (decide (j = i)) as [-> | Hne]; [reflexivity |].
    exfalso. apply (Hunique j e He); [lia | exact Hnorm].
Qed.

End SpineIndex.

Lemma spineIndexOf_literal_path_witness :
  Service.spineIndexOf Sample.as_is Sample.two_chapters "OEBPS/ch2.html" = Some 1%nat
  /\ Service.spineIndexOf Sample.as_is Sample.two_chapters "OEBPS/ch3.html" = None.
Proof.
  pose proof (spineIndexOf_literal_path Sample.as_is Sample.two_chapters 1
                "OEBPS/ch2.html" "OEBPS/ch3.html") as [Hsome Hnone].
  split.
  - apply Hsome; [reflexivity | reflexivity |].
    intros j' e' He' Hlt. destruct j' as [| j']; [| lia].
    injection He' as <-. discriminate.
  - apply Hnone. intros e He.
    apply list_elem_of_In in He. cbn in He.
    destruct He as [<- | [<- | []]]; discriminate.
Defined.

(** A spine that lists a chapter twice answers with the first of the two
    indices, and a path with a [#] in its file name is cut at the [#] and
    not found. *)
Lemma spineIndexOf_not_always_i :
  (Service.spine_resolves Sample.chapter_twice = true
   /\ Service.spine Sample.chapter_twice !! 1%nat = Some "OEBPS/ch1.html"
   /\ Service.spineIndexOf Sample.as_is Sample.chapter_twice "OEBPS/ch1.html" = Some 0%nat
   /\ Service.spineIndexOf Sample.as_is Sample.chapter_twice "OEBPS/ch1.html" <> Some 1%nat)
  /\ (Service.spine_resolves Sample.hash_in_name = true
      /\ Service.spine Sample.hash_in_name !! 0%nat = Some "OEBPS/ch#1.html"
      /\ Service.spineIndexOf Sample.as_is Sample.hash_in_name "OEBPS/ch#1.html" = None).
Proof. repeat split. discriminate. Qed.

(** ** The content service: table of contents *)

Section TocOrder.
Import Service.

Lemma nondecreasing_cons (x y : Z) (l : list Z) :
  nondecreasing (x :: y :: l) = (x <=? y) && nondecreasing (y :: l).
Proof. reflexivity. Qed.

(** The first entry of a level after [place] is the new entry or the old
    first entry. *)
Lemma place_head (n m : TocItem) (level : list TocItem) :
  exists h rest, place n (m :: level) = h :: rest
    /\ (h = n /\ play_order n <= play_order m \/ h = m /\ play_order m < play_order n).
Proof.
  cbn [place]. destruct (Z.leb_spec (play_order n) (play_order m)).
  - exists n, (m :: level). split; [reflexivity | left; split; [reflexivity | assumption]].
  - exists m, (place n level). split; [reflexivity | right; split; [reflexivity | assumption]].
Qed.

Lemma place_nondecreasing (n : TocItem) (level : list TocItem) :
  nondecreasing (map play_order level) = true ->
  nondecreasing (map play_order (place n level)) = true.
Proof.
  induction level as [| m level IH]; intros Hsorted; [reflexivity |].
  cbn [place]. destruct (Z.leb_spec (play_order n) (play_order m)) as [Hle | Hgt].
  - cbn [map]. rewrite nondecreasing_cons. apply andb_true_intro. split.
    + now apply Z.leb_le.
    + exact Hsorted.
  - destruct level as [| m' level].
    + cbn. rewrite andb_true_r. apply Z.leb_le. lia.
    + cbn [map] in Hsorted. rewrite nondecreasing_cons in Hsorted.
      apply andb_prop in Hsorted as [Hmm' Hrest].
      specialize (IH Hrest).
      destruct (place_head n m' level) as (h & rest & Heq & Hh).
      rewrite Heq in IH |- *. cbn [map]. rewrite nondecreasing_cons.
      apply andb_true_intro. split; [| exact IH].
      apply Z.leb_le. apply Z.leb_le in Hmm'.
      destruct Hh as [[-> _] | [-> _]]; lia.
Qed.

Lemma order_level_nondecreasing (level : list TocItem) :
  nondecreasing (map play_order (order_level level)) = true.
Proof.
  induction level as [| n level IH]; [reflexivity |].
  cbn [order_level foldr]. apply place_nondecreasing. exact IH.
Qed.

(** Ordering a level rearranges it. *)
Lemma place_Permutation (n : TocItem) (level : list TocItem) :
  place n level ≡ₚ n :: level.
Proof.
  induction level as [| m level IH]; [reflexivity |].
  cbn [place]. destruct (play_order n <=? play_order m); [reflexivity |].
  rewrite IH. apply Permutation_swap.
Qed.

Lemma order_level_Permutation (level : list TocItem) :
  order_level level ≡ₚ level.
Proof.
  induction level as [| n level IH]; [reflexivity |].
  cbn [order_level foldr]. rewrite place_Permutation. now rewrite IH.
Qed.

(** Entries with the same [play_order] stay in declaration order. *)
Lemma place_with_play_order (p : Z) (n : TocItem) (level : list TocItem) :
  nondecreasing (map play_order level) = true ->
  with_play_order p (place n level) = with_play_order p (n :: level).
Proof.
  unfold with_play_order.
  induction level as [| m level IH]; intros Hsorted; [reflexivity |].
  cbn [place]. destruct (Z.leb_spec (play_order n) (play_order m)) as [Hle | Hgt];
    [reflexivity |].
  assert (nondecreasing (map play_order level) = true) as Hrest.
  { destruct level as [| m' level]; [reflexivity |].
    cbn [map] in Hsorted. rewrite nondecreasing_cons in Hsorted.
    now apply andb_prop in Hsorted as [_ Hrest]. }
  rewrite (filter_cons _ m), (IH Hrest), !filter_cons.
  destruct (decide (play_order m = p)) as [Hm | Hm];
    destruct (decide (play_order n = p)) as [Hn | Hn]; try reflexivity.
  lia.
Qed.

Lemma order_level_with_play_order (p : Z) (level : list TocItem) :
  with_play_order p (order_level level) = with_play_order p level.
Proof.
  induction level as [| n level IH]; [reflexivity |].
  cbn [order_level foldr].
  rewrite place_with_play_order by apply order_level_nondecreasing.
  unfold with_play_order in *. rewrite !filter_cons.
  fold (order_level level). rewrite IH. reflexivity.
Qed.

Lemma forallb_place (f : TocItem -> bool) (n : TocItem) (level : list TocItem) :
  forallb f (place n level) = f n && forallb f level.
Proof.
  induction level as [| m level IH]; [reflexivity |].
  cbn [place]. destruct (play_order n <=? play_order m); [reflexivity |].
  cbn [forallb]. rewrite IH. destruct (f n), (f m); reflexivity.
Qed.

Lemma forallb_order_level (f : TocItem -> bool) (level : list TocItem) :
  forallb f (order_level level) = forallb f level.
Proof.
  induction level as [| n level IH]; [reflexivity |].
  cbn [order_level foldr]. rewrite forallb_place. fold (order_level level).
  now rewrite IH.
Qed.

Lemma order_node_play_order (n : TocItem) : play_order (order_node n) = play_order n.
Proof. destruct n; reflexivity. Qed.

Lemma order_node_children (n : TocItem) :
  children (order_node n) = order_level (map order_node (children n)).
Proof. destruct n; reflexivity. Qed.

(** Every level below an ordered node is ordered. *)
Lemma order_node_ordered (n : TocItem) : node_ordered (order_node n) = true.
Proof.
  induction n as [l c p ch IH] using TocItem_nested_ind.
  cbn [order_node node_ordered]. apply andb_true_intro. split.
  - apply order_level_nondecreasing.
  - rewrite forallb_order_level. induction IH as [| x rest Hx _ IHrest]; [reflexivity |].
    cbn [map forallb]. now rewrite Hx, IHrest.
Qed.

Lemma order_toc_ordered (navPoints : list TocItem) :
  forest_ordered (order_toc navPoints) = true.
Proof.
  unfold forest_ordered, order_toc. apply andb_true_intro. split.
  - apply order_level_nondecreasing.
  - rewrite forallb_order_level. induction navPoints as [| n rest IH]; [reflexivity |].
    cbn [map forallb]. now rewrite order_node_ordered, IH.
Qed.

(** C5. For every document that the loader builds, every level of
    [tocOf(doc)] is non-decreasing in [play_order]: the top level and the
    children of every node, at any depth. Each level is the level that was
    declared, put in ascending order, and entries with equal [play_order]
    keep their declaration order. *)
Theorem tocOf_ordered (key ttl : string) (cover : option string)
    (mf : gmap string (string * string)) (sp : list string)
    (navPoints : list TocItem) :
  let doc := build_document key ttl cover mf sp navPoints in
  forest_ordered (tocOf doc) = true
  /\ tocOf doc ≡ₚ map order_node navPoints
  /\ (forall p, with_play_order p (tocOf doc) = with_play_order p (map order_node navPoints))
  /\ (forall n : TocItem,
        children (order_node n) ≡ₚ map order_node (children n)
        /\ forall p, with_play_order p (children (order_node n))
                     = with_play_order p (map order_node (children n))).
Proof.
  cbn [tocOf build_document toc]. repeat split.
  - apply order_toc_ordered.
  - apply order_level_Permutation.
  - intros p. apply order_level_with_play_order.
  - rewrite order_node_children. apply order_level_Permutation.
  - intros p. rewrite order_node_children. apply order_level_with_play_order.
Qed.

End TocOrder.

(** ** The content service: link clicks *)

Section Links.
Import Service.Script.

Variable resolve : string -> string -> string.

Lemma scheme_rest_colon (sch rest : string) :
  all_scheme_chars sch = true ->
  scheme_rest (sch +:+ ":" +:+ rest) = Some sch.
Proof.
  induction sch as [| c sch IH]; intros Hall; [reflexivity |].
  cbn [all_scheme_chars] in Hall. apply andb_prop in Hall as [Hc Hall].
  change (String c sch +:+ ":" +:+ rest) with (String c (sch +:+ ":" +:+ rest)).
  cbn [scheme_rest]. rewrite Hc, (IH Hall).
  destruct (Ascii.eqb_spec c ":") as [-> | _]; [discriminate Hc | reflexivity].
Qed.

(** A URL that starts with a scheme and a colon has that scheme, whatever
    follows the colon. *)
Lemma scheme_of_prefix (sch rest : string) :
  is_scheme sch = true -> scheme_of (sch +:+ ":" +:+ rest) = Some sch.
Proof.
  destruct sch as [| c sch]; [discriminate |].
  intros H. cbn [is_scheme] in H. apply andb_prop in H as [Halpha Hall].
  change (String c sch +:+ ":" +:+ rest) with (String c (sch +:+ ":" +:+ rest)).
  cbn [scheme_of]. rewrite Halpha.
  apply (scheme_rest_colon (String c sch) rest Hall).
Qed.

(** A reference with a scheme is not a bare fragment. *)
Lemma scheme_not_fragment (href sch : string) :
  scheme_of href = Some sch -> starts_with "#" href = false.
Proof.
  destruct href as [| c href]; [discriminate |].
  cbn [scheme_of starts_with]. destruct (Ascii.eqb_spec "#" c) as [<- | _]; [| reflexivity].
  discriminate.
Qed.

(** C6. The classification goes by the scheme. A click on an anchor whose
    [href] has a scheme other than the custom scheme prevents default
    navigation, leaves the location alone and posts exactly one message,
    [{type: "epub-external-link", url: href}] with the original [href];
    this holds for every URL that starts with such a scheme, whatever
    follows the colon, so the target host plays no part. A click on a
    relative [href] (one without a scheme) navigates in place, the
    rendering surface ending at the resolved target, and posts nothing:
    for a relative path the listener prevents the default and moves the
    location itself, a bare fragment it leaves to the browser. *)
Theorem links_by_scheme (href : string) (f : Frame) :
  (forall sch,
     scheme_of href = Some sch -> sch <> custom_scheme ->
     on_click resolve href f
     = mkHandled true
         (mkFrame (location f)
            (posted f ++ [JObj [("type", JStr "epub-external-link"); ("url", JStr href)]])))
  /\ (forall sch rest,
        is_scheme sch = true -> sch <> custom_scheme -> href = sch +:+ ":" +:+ rest ->
        on_click resolve href f
        = mkHandled true
            (mkFrame (location f)
               (posted f ++ [JObj [("type", JStr "epub-external-link"); ("url", JStr href)]])))
  /\ (scheme_of href = None ->
      click resolve href f = mkFrame (resolve (location f) href) (posted f)
      /\ (starts_with "#" href = false ->
          on_click resolve href f
          = mkHandled true (mkFrame (resolve (location f) href) (posted f)))
      /\ (starts_with "#" href = true -> on_click resolve href f = mkHandled false f)).
Proof.
  assert (forall sch, scheme_of href = Some sch -> sch <> custom_scheme ->
            on_click resolve href f
            = mkHandled true (mkFrame (location f) (posted f ++ [external_link href])))
    as Hexternal.
  { intros sch Hsch Hother. unfold on_click, classify.
    rewrite (scheme_not_fragment href sch Hsch), Hsch.
    destruct (String.eqb_spec sch custom_scheme) as [Heq | _]; [contradiction | reflexivity]. }
  split; [exact Hexternal |]. split.
  - intros sch rest Hsch Hother ->. apply (Hexternal sch); [| exact Hother].
    now apply scheme_of_prefix.
  - intros Hnone. unfold click, on_click, classify. rewrite Hnone.
    destruct (starts_with "#" href); repeat split; intros; try reflexivity; discriminate.
Qed.

End Links.

Lemma links_by_scheme_witness :
  Service.Script.on_click Sample.sibling "mailto:test@example.com" Sample.chapter_one
  = Service.Script.mkHandled true
      (Service.Script.mkFrame "epub://frankenstein.epub/OEBPS/chapter1.html"
         [JObj [("type", JStr "epub-external-link"); ("url", JStr "mailto:test@example.com")]])
  /\ Service.Script.on_click Sample.sibling "https://epub/chapter2.html" Sample.chapter_one
     = Service.Script.mkHandled true
         (Service.Script.mkFrame "epub://frankenstein.epub/OEBPS/chapter1.html"
            [JObj [("type", JStr "epub-external-link");
                   ("url", JStr "https://epub/chapter2.html")]])
  /\ Service.Script.on_click Sample.sibling "chapter2.html" Sample.chapter_one
     = Service.Script.mkHandled true
         (Service.Script.mkFrame "epub://frankenstein.epub/OEBPS/chapter2.html" [])
  /\ Service.Script.click Sample.sibling "#note1" Sample.chapter_one
     = Service.Script.mkFrame "epub://frankenstein.epub/OEBPS/chapter1.html#note1" [].
Proof.
  split; [| split; [| split]].
  - apply (proj1 (links_by_scheme Sample.sibling "mailto:test@example.com"
                    Sample.chapter_one) "mailto"); [reflexivity | discriminate].
  - apply (proj1 (proj2 (links_by_scheme Sample.sibling "https://epub/chapter2.html"
                           Sample.chapter_one)) "https" "//epub/chapter2.html");
      [reflexivity | discriminate | reflexivity].
  - apply (proj2 (proj2 (links_by_scheme Sample.sibling "chapter2.html"
                           Sample.chapter_one))); reflexivity.
  - apply (proj2 (proj2 (links_by_scheme Sample.sibling "#note1"
                           Sample.chapter_one))); reflexivity.
Defined.

(** ** The content service: the library index *)

Section LibraryScan.
Import Service.

Context {File LoadError : Type}.
Variable load : string -> File -> LoadError + EpubDocument.

Abbreviation scan := (fold_left (scan_entry load)).
Abbreviation parseable := (Service.parseable load).
Abbreviation unparseable := (Service.unparseable load).

(** One entry adds to the index, or to the log, or to neither. *)
Lemma scan_entry_cases (acc : Scan LoadError) (name : string) (file : File) :
  (parseable (name, file) = true /\ unparseable (name, file) = false
   /\ exists doc, load name file = inr doc
        /\ scan_entry load acc (name, file)
           = mkScan (<[name := doc]> (index acc)) (skipped acc))
  \/ (parseable (name, file) = false /\ unparseable (name, file) = true
      /\ exists e, load name file = inl e
           /\ scan_entry load acc (name, file)
              = mkScan (index acc) (skipped acc ++ [(name, e)]))
  \/ (parseable (name, file) = false /\ unparseable (name, file) = false
      /\ is_epub name = false
      /\ scan_entry load acc (name, file) = acc).
Proof.
  unfold Service.parseable, Service.unparseable, scan_entry. cbn [fst snd].
  destruct (is_epub name); [| right; right; repeat split].
  destruct (load name file) as [e | doc].
  - right; left. repeat split. exists e. split; reflexivity.
  - left. repeat split. exists doc. split; reflexivity.
Qed.

(** The index after a scan of distinct names that are not yet indexed. *)
Lemma scan_index (l : list (string * File)) (acc : Scan LoadError) :
  NoDup l.*1 ->
  (forall name, name ∈ l.*1 -> index acc !! name = None) ->
  size (index (scan l acc))
    = (size (index acc) + length (List.filter parseable l))%nat
  /\ forall key doc,
       index (scan l acc) !! key = Some doc
       <-> index acc !! key = Some doc
           \/ exists file, (key, file) ∈ l /\ is_epub key = true /\ load key file = inr doc.
Proof.
  revert acc. induction l as [| [name file] l IH]; intros acc Hnodup Hfresh.
  - cbn. split; [lia |]. intros key doc. split; [auto |].
    intros [H | (file & Hin & _)]; [exact H |]. now apply elem_of_nil in Hin.
  - cbn [fmap list_fmap fst] in Hnodup, Hfresh. apply NoDup_cons in Hnodup as [Hname Hnodup].
    cbn [fold_left List.filter].
    assert (index acc !! name = None) as Hnone by (apply Hfresh; left).
    destruct (scan_entry_cases acc name file)
      as [(Hp & _ & doc & Hload & ->) | [(Hp & _ & e & Hload & ->) | (Hp & _ & Hepub & ->)]];
      rewrite Hp.
    + destruct (IH (mkScan (<[name := doc]> (index acc))
                      (skipped acc)) Hnodup) as [Hsize Hlookup].
      { intros n Hn. cbn [index]. rewrite lookup_insert_ne by (intros ->; contradiction).
        apply Hfresh. now right. }
      split.
      * rewrite Hsize. cbn [index length]. rewrite map_size_insert_None by exact Hnone. lia.
      * intros key d. rewrite Hlookup. cbn [index]. split.
        -- intros [H | (f & Hin & Hepub & Hf)].
           ++ destruct (decide (name = key)) as [<- | Hne].
              ** rewrite lookup_insert_eq in H. injection H as <-.
                 right. exists file. split; [left |].
                 split; [| exact Hload].
                 unfold Service.parseable in Hp. cbn [fst snd] in Hp.
                 now apply andb_prop in Hp as [Hp _].
              ** rewrite lookup_insert_ne in H by exact Hne. now left.
           ++ right. exists f. split; [now right | split; assumption].
        -- intros [H | (f & Hin & Hepub & Hf)].
           ++ left. rewrite lookup_insert_ne; [exact H |]. intros <-. congruence.
           ++ apply elem_of_cons in Hin as [Heq | Hin].
              ** injection Heq as -> ->. left. rewrite lookup_insert_eq. congruence.
              ** right. exists f. split; [exact Hin | split; assumption].
    + destruct (IH (mkScan (index acc)
                      (skipped acc ++ [(name, e)])) Hnodup) as [Hsize Hlookup].
      { intros n Hn. cbn [index]. apply Hfresh. now right. }
      split; [exact Hsize |].
      intros key d. rewrite Hlookup. cbn [index]. split.
      * intros [H | (f & Hin & Hepub & Hf)]; [now left |].
        right. exists f. split; [now right | split; assumption].
      * intros [H | (f & Hin & Hepub & Hf)]; [now left |].
        apply elem_of_cons in Hin as [Heq | Hin].
        -- injection Heq as -> ->. congruence.
        -- right. exists f. split; [exact Hin | split; assumption].
    + destruct (IH acc Hnodup) as [Hsize Hlookup].
      { intros n Hn. apply Hfresh. now right. }
      split; [exact Hsize |].
      intros key d. rewrite Hlookup. split.
      * intros [H | (f & Hin & Hepub' & Hf)]; [now left |].
        right. exists f. split; [now right | split; assumption].
      * intros [H | (f & Hin & Hepub' & Hf)]; [now left |].
        apply elem_of_cons in Hin as [Heq | Hin].
        -- injection Heq as -> ->. congruence.
        -- right. exists f. split; [exact Hin | split; assumption].
Qed.

(** The log after a scan. *)
Lemma scan_skipped (l : list (string * File)) (acc : Scan LoadError) :
  length (skipped (scan l acc))
    = (length (skipped acc) + length (List.filter unparseable l))%nat
  /\ forall name file,
       (name, file) ∈ l -> unparseable (name, file) = true ->
       exists e, load name file = inl e /\ (name, e) ∈ skipped (scan l acc).
Proof.
  assert (forall l acc x, x ∈ skipped acc -> x ∈ skipped (scan l acc))
    as Hkeep.
  { clear. intros l. induction l as [| [name file] l IH]; intros acc x Hx; [exact Hx |].
    cbn [fold_left]. apply IH.
    destruct (scan_entry_cases acc name file)
      as [(_ & _ & doc & _ & ->) | [(_ & _ & e & _ & ->) | (_ & _ & _ & ->)]];
      cbn [skipped]; [exact Hx | | exact Hx].
    apply elem_of_app. now left. }
  revert acc. induction l as [| [name file] l IH]; intros acc.
  - cbn. split; [lia |]. intros n f Hin. now apply elem_of_nil in Hin.
  - cbn [fold_left List.filter].
    destruct (scan_entry_cases acc name file)
      as [(_ & Hu & doc & Hload & ->) | [(_ & Hu & e & Hload & ->) | (_ & Hu & Hepub & ->)]];
      rewrite Hu.
    + destruct (IH (mkScan (<[name := doc]> (index acc))
                      (skipped acc))) as [Hlen Hlog].
      split; [exact Hlen |].
      intros n f Hin Hbad. apply elem_of_cons in Hin as [Heq | Hin]; [| now apply (Hlog n f)].
      injection Heq as -> ->. congruence.
    + destruct (IH (mkScan (index acc)
                      (skipped acc ++ [(name, e)]))) as [Hlen Hlog].
      split.
      * rewrite Hlen. cbn [skipped length]. rewrite length_app. cbn [length]. lia.
      * intros n f Hin Hbad. apply elem_of_cons in Hin as [Heq | Hin]; [| now apply (Hlog n f)].
        injection Heq as -> ->. exists e. split; [exact Hload |].
        apply Hkeep. cbn [skipped]. apply elem_of_app. right. now left.
    + destruct (IH acc) as [Hlen Hlog].
      split; [exact Hlen |].
      intros n f Hin Hbad. apply elem_of_cons in Hin as [Heq | Hin]; [| now apply (Hlog n f)].
      injection Heq as -> ->. congruence.
Qed.

(** C7. For a directory with [N] archives that load and [M] that do not,
    [loadAll] builds an index (a failure of a file never aborts the scan)
    with exactly [N] entries; every entry is an archive of the directory
    that loaded, under its own file name; every archive that fails is
    logged, [M] log entries in all, and is found under no key. *)
Theorem loadAll_skips_corrupt (entries : gmap string File) :
  exists s,
    loadAll load (Some entries) = Built s
    /\ size (index s) = count_entries parseable entries
    /\ length (skipped s) = count_entries unparseable entries
    /\ (forall key doc,
          index s !! key = Some doc
          <-> exists file, entries !! key = Some file
                /\ is_epub key = true /\ load key file = inr doc)
    /\ (forall name file,
          entries !! name = Some file -> unparseable (name, file) = true ->
          index s !! name = None
          /\ exists e, load name file = inl e /\ (name, e) ∈ skipped s).
Proof.
  unfold loadAll, count_entries. eexists. split; [reflexivity |].
  destruct (scan_index (map_to_list entries) (mkScan ∅ []))
    as [Hsize Hlookup].
  { apply NoDup_fst_map_to_list. }
  { intros name _. apply lookup_empty. }
  destruct (scan_skipped (map_to_list entries) (mkScan ∅ [])) as [Hlen Hlog].
  assert (forall key doc,
            index (scan (map_to_list entries) (mkScan ∅ [])) !! key = Some doc
            <-> exists file, entries !! key = Some file
                  /\ is_epub key = true /\ load key file = inr doc) as Hindex.
  { intros key doc. rewrite Hlookup. cbn [index]. rewrite lookup_empty. split.
    - intros [H | (file & Hin & Hrest)]; [discriminate |].
      exists file. split; [now apply elem_of_map_to_list | exact Hrest].
    - intros (file & Hin & Hrest). right.
      exists file. split; [now apply elem_of_map_to_list | exact Hrest]. }
  split; [| split; [| split; [exact Hindex |]]].
  - rewrite Hsize. cbn [index]. now rewrite map_size_empty.
  - rewrite Hlen. reflexivity.
  - intros name file Hin Hbad. split.
    + apply eq_None_not_Some. intros [doc Hdoc].
      apply Hindex in Hdoc as (file' & Hin' & _ & Hload).
      rewrite Hin in Hin'. injection Hin' as <-.
      unfold Service.unparseable in Hbad. cbn [fst snd] in Hbad.
      rewrite Hload in Hbad. now rewrite andb_false_r in Hbad.
    + apply (Hlog name file); [| exact Hbad]. now apply elem_of_map_to_list.
Qed.

End LibraryScan.

Lemma loadAll_skips_corrupt_witness :
  exists s,
    Service.loadAll Sample.load_titled (Some Sample.shelf) = Service.Built s
    /\ size (Service.index s) = 1%nat
    /\ length (Service.skipped s) = 1%nat
    /\ Service.index s !! "broken.epub" = None
    /\ ("broken.epub", "malformed container") ∈ Service.skipped s.
Proof.
  destruct (loadAll_skips_corrupt Sample.load_titled Sample.shelf)
    as (s & Hbuilt & Hsize & Hlen & _ & Hcorrupt).
  exists s. split; [exact Hbuilt |].
  split; [rewrite Hsize; vm_compute; reflexivity |].
  split; [rewrite Hlen; vm_compute; reflexivity |].
  destruct (Hcorrupt "broken.epub" None) as (Hnone & e & Hload & Hlog);
    [reflexivity | reflexivity |].
  split; [exact Hnone |].
  injection Hload as <-. exact Hlog.
Defined.

(** * Further properties of the components *)

(** ** Turning pages across chapters *)

Section Chapters.
Import Reader ReaderView.

Lemma index_Some {A : Type} (l : list A) (i : Z) (x : A) :
  index l i = Some x <-> 0 <= i /\ l !! Z.to_nat i = Some x.
Proof.
  unfold index. destruct (Z.ltb_spec i 0).
  - split; [discriminate | intros [Hi _]; lia].
  - split; [intros Hx; split; [lia | exact Hx] | intros [_ Hx]; exact Hx].
Qed.

Lemma index_in_range {A : Type} (l : list A) (i : Z) :
  0 <= i < len l -> exists x, index l i = Some x.
Proof.
  intros [Hlo Hhi]. unfold len in Hhi.
  destruct (lookup_lt_is_Some_2 l (Z.to_nat i)) as [x Hx]; [lia |].
  exists x. apply index_Some. split; assumption.
Qed.

Lemma index_range {A : Type} (l : list A) (i : Z) (x : A) :
  index l i = Some x -> 0 <= i < len l.
Proof.
  intros H. apply index_Some in H as [Hlo Hx].
  apply lookup_lt_Some in Hx. unfold len. lia.
Qed.

Lemma on_spine_spec (s : State) :
  on_spine s = true
  <-> exists path, index (spine s) (currentSpineIndex s) = Some path
                   /\ currentContent s = epub_uri (bookKey s) path.
Proof.
  unfold on_spine. destruct (index (spine s) (currentSpineIndex s)) as [path |].
  - rewrite String.eqb_eq. split; [eauto |]. now intros (p & [= ->] & H).
  - split; [discriminate |]. now intros (p & H & _).
Qed.

(** The chapter that [handleNextPage] opens at the end of a chapter. *)
Lemma handleNextPage_chapter (s : State) (path : string) :
  currentPage s >= totalPages s - 1 ->
  currentSpineIndex s < len (spine s) - 1 ->
  index (spine s) (currentSpineIndex s + 1) = Some path ->
  handleNextPage s
  = (setCurrentPage 0
       (setCurrentSpineIndex (currentSpineIndex s + 1)
          (setCurrentContent (epub_uri (bookKey s) path) s)), []).
Proof.
  intros Hpage Hidx Hpath. unfold handleNextPage.
  destruct (Z.geb_spec (currentPage s) (totalPages s - 1)); [| lia].
  destruct (Z.ltb_spec (currentSpineIndex s) (len (spine s) - 1)); [| lia].
  cbn zeta. now rewrite Hpath.
Qed.

(** The chapter that [handlePreviousPage] opens at the start of a
    chapter. *)
Lemma handlePreviousPage_chapter (s : State) (path : string) :
  currentPage s = 0 ->
  currentSpineIndex s > 0 ->
  index (spine s) (currentSpineIndex s - 1) = Some path ->
  handlePreviousPage s
  = (setCurrentPage 0
       (setCurrentSpineIndex (currentSpineIndex s - 1)
          (setCurrentContent (epub_uri (bookKey s) path) s)), []).
Proof.
  intros Hpage Hidx Hpath. unfold handlePreviousPage. rewrite Hpage.
  destruct (Z.gtb_spec (currentSpineIndex s) 0); [| lia].
  cbn zeta. now rewrite Hpath.
Qed.

Lemma handleNextPage_on_spine (s : State) :
  on_spine s = true -> on_spine (handleNextPage s).1 = true.
Proof.
  intros Hon. pose proof Hon as Hon'. apply on_spine_spec in Hon' as (p & Hp & _).
  apply index_range in Hp.
  destruct (Z.geb_spec (currentPage s) (totalPages s - 1)) as [Hpage | Hpage].
  - destruct (Z.ltb_spec (currentSpineIndex s) (len (spine s) - 1)) as [Hidx | Hidx].
    + destruct (index_in_range (spine s) (currentSpineIndex s + 1)) as [q Hq]; [lia |].
      rewrite (handleNextPage_chapter s q) by (assumption || lia).
      apply on_spine_spec. exists q. split; [exact Hq | reflexivity].
    + unfold handleNextPage.
      destruct (Z.geb_spec (currentPage s) (totalPages s - 1)); [| lia].
      destruct (Z.ltb_spec (currentSpineIndex s) (len (spine s) - 1)); [lia |].
      exact Hon.
  - unfold handleNextPage.
    destruct (Z.geb_spec (currentPage s) (totalPages s - 1)); [lia |]. exact Hon.
Qed.

Lemma handlePreviousPage_on_spine (s : State) :
  on_spine s = true -> on_spine (handlePreviousPage s).1 = true.
Proof.
  intros Hon. pose proof Hon as Hon'. apply on_spine_spec in Hon' as (p & Hp & _).
  apply index_range in Hp.
  destruct (Z.eqb_spec (currentPage s) 0) as [Hpage | Hpage].
  - destruct (Z.gtb_spec (currentSpineIndex s) 0) as [Hidx | Hidx].
    + destruct (index_in_range (spine s) (currentSpineIndex s - 1)) as [q Hq]; [lia |].
      rewrite (handlePreviousPage_chapter s q) by (assumption || lia).
      apply on_spine_spec. exists q. split; [exact Hq | reflexivity].
    + unfold handlePreviousPage. rewrite Hpage.
      destruct (Z.gtb_spec (currentSpineIndex s) 0); [lia |]. exact Hon.
  - unfold handlePreviousPage.
    destruct (Z.eqb_spec (currentPage s) 0); [contradiction |]. exact Hon.
Qed.

Section Traces.
Variable JSON_stringify : JSON -> string.
Variable JSON_parse : string -> completion JSON.
Variable backend : Backend.

Abbreviation step := (Reader.step JSON_stringify JSON_parse backend).
Abbreviation run := (Reader.run JSON_stringify JSON_parse backend).

Lemma paging_step_on_spine (w : World) (ev : Event) :
  is_paging ev = true ->
  on_spine (state w) = true ->
  on_spine (state (step w ev)) = true.
Proof.
  intros Hev Hon. destruct ev as [| page total now | | | c | b]; try discriminate;
    cbn [Reader.step].
  - exact Hon.
  - pose proof (handleNextPage_on_spine (state w) Hon) as H.
    destruct (handleNextPage (state w)); exact H.
  - pose proof (handlePreviousPage_on_spine (state w) Hon) as H.
    destruct (handlePreviousPage (state w)); exact H.
  - exact Hon.
Qed.

Lemma paging_run_on_spine (w : World) (evs : list Event) :
  forallb is_paging evs = true ->
  on_spine (state w) = true ->
  on_spine (state (run w evs)) = true.
Proof.
  revert w. induction evs as [| ev evs IH]; intros w Hevs Hon; [exact Hon |].
  cbn in Hevs. apply andb_prop in Hevs as [Hev Hevs].
  cbn [Reader.run fold_left]. apply (IH _ Hevs). now apply paging_step_on_spine.
Qed.

(** X1. While pages are turned (clicks on the two buttons, reports of the
    rendered content, the viewer mounting), a reader that shows the spine
    entry at its spine index keeps doing so: [currentSpineIndex] stays
    inside the spine and [currentContent] is the URI of the entry at that
    index, never a URI built from a missing entry. *)
Theorem paging_stays_on_spine (w : World) (evs : list Event) :
  forallb is_paging evs = true ->
  on_spine (state w) = true ->
  on_spine (state (run w evs)) = true
  /\ 0 <= currentSpineIndex (state (run w evs)) < len (spine (state (run w evs))).
Proof.
  intros Hevs Hon.
  pose proof (paging_run_on_spine w evs Hevs Hon) as Hend.
  split; [exact Hend |].
  apply on_spine_spec in Hend as (p & Hp & _). exact (index_range _ _ _ Hp).
Qed.

Lemma step_sent (w : World) (ev : Event) :
  Forall (fun msg => is_pagination_message msg = true) (sent w) ->
  Forall (fun msg => is_pagination_message msg = true) (sent (step w ev)).
Proof.
  intros Hsent. destruct ev as [| page total now | | | c | b]; cbn [Reader.step];
    try exact Hsent.
  - unfold handleNextPage, sendMessage.
    repeat case_match; simplify_eq; cbn [sent]; rewrite ?app_nil_r; try exact Hsent;
      apply Forall_app; split; try exact Hsent; repeat constructor.
  - unfold handlePreviousPage, sendMessage.
    repeat case_match; simplify_eq; cbn [sent]; rewrite ?app_nil_r; try exact Hsent;
      apply Forall_app; split; try exact Hsent; repeat constructor.
Qed.

Lemma is_pagination_message_spec (msg : JSON) :
  is_pagination_message msg = true ->
  msg = JObj [("type", JStr "pagination-next")]
  \/ msg = JObj [("type", JStr "pagination-previous")].
Proof.
  intros H.
  destruct msg as [| | | | | [| [k [| | | tag | |]] [| more rest]]]; try discriminate H.
  cbn [is_pagination_message] in H.
  apply andb_prop in H as [Hk Htag]. apply String.eqb_eq in Hk as ->.
  apply orb_prop in Htag as [Htag | Htag]; apply String.eqb_eq in Htag as ->; auto.
Qed.

(** X2. Whatever happens to a mounted reader, every message it has handed
    to the rendered content is [{type: "pagination-next"}] or
    [{type: "pagination-previous"}], an object with the one field [type];
    it sends no other kind of message. *)
Theorem reader_sends_pagination_only (key : option string) (ls : gmap string string)
    (evs : list Event) :
  Forall (fun msg => msg = JObj [("type", JStr "pagination-next")]
                     \/ msg = JObj [("type", JStr "pagination-previous")])
    (sent (run (mounted key ls) evs)).
Proof.
  assert (forall w, Forall (fun msg => is_pagination_message msg = true) (sent w) ->
            Forall (fun msg => is_pagination_message msg = true) (sent (run w evs))) as Hrun.
  { induction evs as [| ev evs IH]; intros w Hw; [exact Hw |].
    cbn [Reader.run fold_left]. apply IH. now apply step_sent. }
  eapply Forall_impl; [apply Hrun; constructor |].
  intros msg. apply is_pagination_message_spec.
Qed.

End Traces.

(** X3. Forward and back over a chapter boundary. From the end of a
    chapter that is not the last, with the content on the spine,
    [handleNextPage] opens the next spine entry at page 0 and
    [handlePreviousPage] then opens the chapter left behind again, at its
    first page (not at the page the reader came from); neither sends a
    message. *)
Theorem next_then_previous_chapter (s : State) :
  on_spine s = true ->
  currentPage s >= totalPages s - 1 ->
  currentSpineIndex s < len (spine s) - 1 ->
  let forward := handleNextPage s in
  let back := handlePreviousPage forward.1 in
  (exists next, index (spine s) (currentSpineIndex s + 1) = Some next
                /\ currentContent forward.1 = epub_uri (bookKey s) next)
  /\ currentSpineIndex forward.1 = currentSpineIndex s + 1
  /\ currentPage forward.1 = 0
  /\ currentContent back.1 = currentContent s
  /\ currentSpineIndex back.1 = currentSpineIndex s
  /\ currentPage back.1 = 0
  /\ forward.2 = [] /\ back.2 = [].
Proof.
  intros Hon Hpage Hidx forward back.
  apply on_spine_spec in Hon as (p & Hp & Hcontent).
  pose proof (index_range _ _ _ Hp) as Hrange.
  destruct (index_in_range (spine s) (currentSpineIndex s + 1)) as [q Hq]; [lia |].
  assert (forward = (setCurrentPage 0
                       (setCurrentSpineIndex (currentSpineIndex s + 1)
                          (setCurrentContent (epub_uri (bookKey s) q) s)), [])) as Hforward
    by (now apply handleNextPage_chapter).
  assert (back = (setCurrentPage 0
                    (setCurrentSpineIndex (currentSpineIndex s)
                       (setCurrentContent (epub_uri (bookKey s) p) forward.1)), [])) as Hback.
  { subst back. rewrite Hforward. cbn [fst].
    rewrite (handlePreviousPage_chapter _ p); cbn; try lia.
    - do 3 f_equal. lia.
    - replace (currentSpineIndex s + 1 - 1) with (currentSpineIndex s) by lia. exact Hp. }
  rewrite Hback, Hforward. cbn. repeat split; try assumption || reflexivity.
  - exists q. split; [exact Hq | reflexivity].
  - now rewrite Hcontent.
Qed.

(** X4. A button that is not disabled does something. With the viewer
    mounted, a click on the forward button while it is enabled changes the
    state or sends a message; so does a click on the back button while it
    is enabled, for a spine index that is not negative. *)
Theorem enabled_button_acts (s : State) :
  iframeRef s = true ->
  (nextDisabled s = false -> handleNextPage s <> (s, []))
  /\ (previousDisabled s = false -> 0 <= currentSpineIndex s ->
      handlePreviousPage s <> (s, [])).
Proof.
  intros Hmounted. split.
  - unfold nextDisabled, handleNextPage, sendMessage. rewrite Hmounted.
    destruct (Z.geb_spec (currentPage s) (totalPages s - 1)); [| discriminate].
    destruct (Z.geb_spec (currentSpineIndex s) (len (spine s) - 1)); [discriminate |].
    destruct (Z.ltb_spec (currentSpineIndex s) (len (spine s) - 1)); [| lia].
    intros _ Heq. injection Heq as Heq.
    apply (f_equal currentSpineIndex) in Heq. cbn in Heq. lia.
  - unfold previousDisabled, handlePreviousPage, sendMessage. rewrite Hmounted.
    destruct (Z.eqb_spec (currentPage s) 0); [| discriminate].
    destruct (Z.eqb_spec (currentSpineIndex s) 0); [discriminate |].
    destruct (Z.gtb_spec (currentSpineIndex s) 0); [| lia].
    intros _ _ Heq. injection Heq as Heq.
    apply (f_equal currentSpineIndex) in Heq. cbn in Heq. lia.
Qed.

(** X5. The tooltips tell what a click does: the forward button reads
    "Next chapter" exactly when [handleNextPage] moves the spine index on by
    one, and "Next page" exactly when it leaves the index alone; the back
    button reads "Previous chapter" exactly when [handlePreviousPage] moves
    the index back by one, and "Previous page" exactly when it leaves it
    alone. *)
Theorem titles_tell_the_action (s : State) :
  currentSpineIndex (handleNextPage s).1
  = (if String.eqb (nextTitle s) "Next chapter"
     then currentSpineIndex s + 1 else currentSpineIndex s)
  /\ currentSpineIndex (handlePreviousPage s).1
     = (if String.eqb (previousTitle s) "Previous chapter"
        then currentSpineIndex s - 1 else currentSpineIndex s)
  /\ (nextTitle s = "Next chapter" \/ nextTitle s = "Next page")
  /\ (previousTitle s = "Previous chapter" \/ previousTitle s = "Previous page").
Proof.
  unfold nextTitle, previousTitle, handleNextPage, handlePreviousPage.
  destruct (currentPage s >=? totalPages s - 1),
           (currentSpineIndex s <? len (spine s) - 1),
           (currentPage s =? 0), (currentSpineIndex s >? 0);
    cbn; auto.
Qed.

End Chapters.

Lemma paging_stays_on_spine_witness :
  let w := Reader.run Sample.stringify Sample.no_parse Sample.one_book
             Sample.loaded Sample.there_and_back in
  ReaderView.on_spine (Reader.state w) = true
  /\ 0 <= Reader.currentSpineIndex (Reader.state w) < len (Reader.spine (Reader.state w)).
Proof.
  apply (paging_stays_on_spine Sample.stringify Sample.no_parse Sample.one_book
           Sample.loaded Sample.there_and_back); reflexivity.
Defined.

Lemma next_then_previous_chapter_witness :
  let forward := Reader.handleNextPage Sample.end_of_first_chapter in
  let back := Reader.handlePreviousPage forward.1 in
  Reader.currentContent forward.1 = "epub://frankenstein.epub/OEBPS/ch2.html"
  /\ Reader.currentContent back.1 = "epub://frankenstein.epub/OEBPS/ch1.html"
  /\ Reader.currentSpineIndex back.1 = 0.
Proof.
  intros forward back.
  destruct (next_then_previous_chapter Sample.end_of_first_chapter)
    as (_ & _ & _ & Hcontent & Hidx & _); try reflexivity.
  - vm_compute. discriminate.
  - split; [reflexivity |]. split; [exact Hcontent | exact Hidx].
Defined.

Lemma enabled_button_acts_witness :
  Reader.handleNextPage Sample.end_of_first_chapter <> (Sample.end_of_first_chapter, [])
  /\ Reader.handlePreviousPage Sample.in_the_middle <> (Sample.in_the_middle, []).
Proof.
  split.
  - apply (proj1 (enabled_button_acts Sample.end_of_first_chapter eq_refl)). reflexivity.
  - apply (proj2 (enabled_button_acts Sample.in_the_middle eq_refl)); [reflexivity |].
    vm_compute. discriminate.
Defined.

(** ** Loading a book *)

Section Loading.
Import Reader.

Variable JSON_parse : string -> completion JSON.
Variable backend : Backend.

Abbreviation afterLoadBook := (Reader.afterLoadBook JSON_parse backend).

(** X6. [loadBook] always ends with [loading] off. When a backend call
    rejects, the error text is ["Failed to load book: "] followed by the
    rejection, and what was set before the rejection stays set: nothing
    else changes when the title fails, the title is already replaced when
    the table of contents fails, title and table of contents when the
    spine fails; the content shown and the spine index are as before. *)
Theorem loadBook_rejection (s : State) (ls : gmap string string) :
  loading (afterLoadBook s ls) = false
  /\ (forall e,
        get_book_title backend (bookKey s) = Throw e ->
        afterLoadBook s ls = setLoading false (setError (Some ("Failed to load book: " +:+ e)) s))
  /\ (forall ttl e,
        get_book_title backend (bookKey s) = Normal ttl ->
        get_book_toc backend (bookKey s) = Throw e ->
        afterLoadBook s ls
        = setLoading false (setError (Some ("Failed to load book: " +:+ e)) (setBookTitle ttl s)))
  /\ (forall ttl tocData e,
        get_book_title backend (bookKey s) = Normal ttl ->
        get_book_toc backend (bookKey s) = Normal tocData ->
        get_spine backend (bookKey s) = Throw e ->
        afterLoadBook s ls
        = setLoading false
            (setError (Some ("Failed to load book: " +:+ e)) (setToc tocData (setBookTitle ttl s)))).
Proof.
  unfold Reader.afterLoadBook, loadBook. unfold_act. split; [| split; [| split]].
  - repeat case_match; simplify_eq; reflexivity.
  - intros e ->. destruct s; reflexivity.
  - intros ttl e -> ->. destruct s; reflexivity.
  - intros ttl tocData e -> -> ->. destruct s; reflexivity.
Qed.

(** What [loadBook] does when the backend answers and the stored value,
    if any, is not a position of this book. *)
Lemma loadBook_from_the_start (s : State) (ls : gmap string string) (v : JSON)
    (ttl : string) (tocData : list TocItem) (spineData : list string) :
  get_book_title backend (bookKey s) = Normal ttl ->
  get_book_toc backend (bookKey s) = Normal tocData ->
  get_spine backend (bookKey s) = Normal spineData ->
  loadReadingPosition JSON_parse (bookKey s) ls = Normal v ->
  truthy v && strict_eq_string (prop v "bookKey") (bookKey s) = false ->
  afterLoadBook s ls
  = setLoading false
      (match head spineData with
       | Some first =>
           setCurrentSpineIndex 0
             (setCurrentContent (epub_uri (bookKey s) first)
                (setSpine spineData (setToc tocData (setBookTitle ttl (setError None s)))))
       | None => setSpine spineData (setToc tocData (setBookTitle ttl (setError None s)))
       end).
Proof.
  intros Httl Htoc Hspine Hload Hforeign.
  unfold Reader.afterLoadBook, loadBook. unfold_act.
  rewrite Httl, Htoc, Hspine, Hload, Hforeign, len_pos, index_0.
  destruct spineData as [| first rest]; destruct s; reflexivity.
Qed.

(** X7. A stored value is resumed from only when it is an object whose
    [bookKey] is the reader's. With a stored position of another book (or
    a stored document of any other shape that parses), [loadBook] starts
    from the first spine entry, at spine index 0, just as with nothing
    stored; with an empty spine it leaves the content as it was. *)
Theorem loadBook_ignores_foreign_position (s : State) (ls : gmap string string)
    (k saved : string) (v : JSON)
    (ttl : string) (tocData : list TocItem) (spineData : list string) :
  bookKey s = Some k -> k <> "" ->
  get_book_title backend (Some k) = Normal ttl ->
  get_book_toc backend (Some k) = Normal tocData ->
  get_spine backend (Some k) = Normal spineData ->
  ls !! ("reading-" +:+ k) = Some saved ->
  JSON_parse saved = Normal v ->
  prop v "bookKey" <> Some (JStr k) ->
  currentContent (afterLoadBook s ls)
  = match head spineData with
    | Some first => "epub://" +:+ k +:+ "/" +:+ first
    | None => currentContent s
    end
  /\ currentSpineIndex (afterLoadBook s ls)
     = match head spineData with
       | Some _ => 0
       | None => currentSpineIndex s
       end
  /\ error (afterLoadBook s ls) = None.
Proof.
  intros Hk Hne Httl Htoc Hspine Hls Hparse Hforeign.
  assert (exists v', loadReadingPosition JSON_parse (bookKey s) ls = Normal v'
                     /\ truthy v' && strict_eq_string (prop v' "bookKey") (bookKey s) = false)
    as (v' & Hload & Hno).
  { unfold loadReadingPosition. rewrite Hk. destruct k as [| c k]; [congruence |].
    cbn [truthy_opt_string truthy_string negb].
    change (reading_key (Some (String c k))) with ("reading-" +:+ String c k).
    rewrite Hls. destruct saved as [| c' saved'].
    - exists JNull. split; reflexivity.
    - cbn [truthy_string negb]. rewrite Hparse. exists v. split; [reflexivity |].
      apply andb_false_iff. right. unfold strict_eq_string.
      destruct (prop v "bookKey") as [[| | | t | |] |]; try reflexivity.
      apply String.eqb_neq. congruence. }
  rewrite (loadBook_from_the_start s ls v' ttl tocData spineData)
    by first [assumption | rewrite Hk; assumption].
  rewrite Hk. destruct spineData as [| first rest]; repeat split.
Qed.

(** X8. Resuming restores the chapter, not the page. When a position of
    this book is stored, [loadBook] shows the stored content path and takes
    the spine index that the backend finds for it (keeping the old index
    when the backend finds none); [currentPage] and [totalPages] are left
    as they were, whatever [page] the stored position carries. *)
Theorem resume_restores_chapter_only (s : State) (ls : gmap string string)
    (k saved path : string) (page stamp : Z)
    (ttl : string) (tocData : list TocItem) (spineData : list string)
    (found : option Z) :
  bookKey s = Some k -> k <> "" ->
  ls !! ("reading-" +:+ k) = Some saved -> saved <> "" ->
  JSON_parse saved = Normal (ReadingPosition k path page stamp) ->
  get_book_title backend (Some k) = Normal ttl ->
  get_book_toc backend (Some k) = Normal tocData ->
  get_spine backend (Some k) = Normal spineData ->
  get_current_spine_index backend (Some k) (Some (JStr path)) = Normal found ->
  currentContent (afterLoadBook s ls) = "epub://" +:+ k +:+ "/" +:+ path
  /\ currentSpineIndex (afterLoadBook s ls) = default (currentSpineIndex s) found
  /\ currentPage (afterLoadBook s ls) = currentPage s
  /\ totalPages (afterLoadBook s ls) = totalPages s
  /\ error (afterLoadBook s ls) = None.
Proof.
  intros Hk Hne Hls Hsaved Hparse Httl Htoc Hspine Hfound.
  unfold Reader.afterLoadBook, loadBook. unfold_act.
  rewrite Hk, Httl, Htoc, Hspine.
  assert (loadReadingPosition JSON_parse (Some k) ls
          = Normal (ReadingPosition k path page stamp)) as ->.
  { unfold loadReadingPosition. destruct k as [| c k]; [congruence |].
    cbn [truthy_opt_string truthy_string negb].
    change (reading_key (Some (String c k))) with ("reading-" +:+ String c k).
    rewrite Hls. destruct saved; [congruence |]. cbn [truthy_string negb].
    now rewrite Hparse. }
  cbn [truthy ReadingPosition prop assoc String.eqb Ascii.eqb Bool.eqb
       strict_eq_string tmpl andb].
  rewrite String.eqb_refl.
  cbn [tmpl_value prop assoc String.eqb Ascii.eqb Bool.eqb to_string].
  rewrite Hfound. destruct found; destruct s; repeat split.
Qed.

End Loading.

Lemma loadBook_rejection_witness :
  Reader.afterLoadBook Sample.no_parse Sample.no_toc
    (Reader.initial (Some "frankenstein.epub")) ∅
  = Reader.setLoading false
      (Reader.setError (Some "Failed to load book: Book not found")
         (Reader.setBookTitle "Frankenstein" (Reader.initial (Some "frankenstein.epub")))).
Proof.
  apply (proj1 (proj2 (proj2
           (loadBook_rejection Sample.no_parse Sample.no_toc
              (Reader.initial (Some "frankenstein.epub")) ∅)))); reflexivity.
Defined.

Lemma loadBook_ignores_foreign_position_witness :
  let ls : gmap string string :=
    {[ "reading-frankenstein.epub" := Sample.stringify Sample.foreign_position ]} in
  let s := Reader.afterLoadBook Sample.parse_foreign_position Sample.one_book
             (Reader.initial (Some "frankenstein.epub")) ls in
  Reader.currentContent s = "epub://frankenstein.epub/OEBPS/ch1.html"
  /\ Reader.currentSpineIndex s = 0
  /\ Reader.error s = None.
Proof.
  intros ls s.
  apply (loadBook_ignores_foreign_position Sample.parse_foreign_position Sample.one_book
           (Reader.initial (Some "frankenstein.epub")) ls
           "frankenstein.epub" (Sample.stringify Sample.foreign_position)
           Sample.foreign_position "Frankenstein"
           Sample.frankenstein_toc Sample.frankenstein_spine);
    try reflexivity; intros Heq; vm_compute in Heq; discriminate Heq.
Defined.

Lemma resume_restores_chapter_only_witness :
  let ls : gmap string string :=
    {[ "reading-frankenstein.epub" := Sample.stringify Sample.saved_position ]} in
  let s := Reader.afterLoadBook Sample.parse_saved_position Sample.one_book
             (Reader.initial (Some "frankenstein.epub")) ls in
  prop Sample.saved_position "page" = Some (JNum 1)
  /\ Reader.currentContent s = "epub://frankenstein.epub/OEBPS/ch1.html"
  /\ Reader.currentPage s = 0.
Proof.
  intros ls s.
  destruct (resume_restores_chapter_only Sample.parse_saved_position Sample.one_book
              (Reader.initial (Some "frankenstein.epub")) ls
              "frankenstein.epub" (Sample.stringify Sample.saved_position)
              "OEBPS/ch1.html" 1 1700000000000 "Frankenstein"
              Sample.frankenstein_toc Sample.frankenstein_spine None)
    as (Hcontent & _ & Hpage & _); try reflexivity; try discriminate.
  split; [reflexivity |]. split; [exact Hcontent | exact Hpage].
Defined.

(** ** The store of reading positions *)

Section Store.
Import Reader.

Variable JSON_stringify : JSON -> string.
Variable JSON_parse : string -> completion JSON.

Lemma reading_key_inj (k k' : string) :
  reading_key (Some k) = reading_key (Some k') -> k = k'.
Proof. unfold reading_key. cbn [tmpl]. apply append_inj_r. Qed.

(** What [saveReadingPosition] writes for a reader with a book and
    content. *)
Lemma save_with_book (s : State) (k : string) (now : Z) (ls : gmap string string) :
  bookKey s = Some k -> k <> "" -> currentContent s <> "" ->
  saveReadingPosition JSON_stringify s now ls
  = <["reading-" +:+ k :=
        JSON_stringify
          (ReadingPosition k (replace ("epub://" +:+ k +:+ "/") "" (currentContent s))
             (currentPage s) now)]> ls.
Proof.
  intros Hk Hne Hcontent. unfold saveReadingPosition. rewrite Hk.
  destruct k; [congruence |]. destruct (currentContent s); [congruence |]. reflexivity.
Qed.

(** X9. What is saved is what is loaded. After [saveReadingPosition] in
    a render with a book and content, [loadReadingPosition] for the same
    book returns the object that was saved, with the render's content
    path, page and the time of saving, provided the parser gives back the
    object that was serialized. *)
Theorem save_then_load (s : State) (k : string) (now : Z) (ls : gmap string string) :
  bookKey s = Some k -> k <> "" -> currentContent s <> "" ->
  let position :=
    ReadingPosition k (replace ("epub://" +:+ k +:+ "/") "" (currentContent s))
      (currentPage s) now in
  JSON_stringify position <> "" ->
  JSON_parse (JSON_stringify position) = Normal position ->
  loadReadingPosition JSON_parse (Some k) (saveReadingPosition JSON_stringify s now ls)
  = Normal position.
Proof.
  intros Hk Hne Hcontent position Hnonempty Hparse.
  rewrite (save_with_book s k now ls Hk Hne Hcontent). fold position.
  unfold loadReadingPosition. destruct k as [| c k]; [congruence |].
  cbn [truthy_opt_string truthy_string negb].
  change (reading_key (Some (String c k))) with ("reading-" +:+ String c k).
  rewrite lookup_insert_eq.
  destruct (JSON_stringify position); [congruence |].
  cbn [truthy_string negb]. now rewrite Hparse.
Qed.

(** X10. Positions of different books do not disturb each other: saving
    for the reader's book changes nothing under the key of another book,
    and [loadReadingPosition] for the other book answers as before. *)
Theorem save_keeps_other_books (s : State) (k other : string) (now : Z)
    (ls : gmap string string) :
  bookKey s = Some k -> k <> other ->
  saveReadingPosition JSON_stringify s now ls !! ("reading-" +:+ other)
  = ls !! ("reading-" +:+ other)
  /\ loadReadingPosition JSON_parse (Some other) (saveReadingPosition JSON_stringify s now ls)
     = loadReadingPosition JSON_parse (Some other) ls.
Proof.
  intros Hk Hother.
  assert (saveReadingPosition JSON_stringify s now ls !! reading_key (Some other)
          = ls !! reading_key (Some other)) as Hsame.
  { unfold saveReadingPosition. rewrite Hk.
    destruct (negb (truthy_opt_string (Some k)) || negb (truthy_string (currentContent s)));
      [reflexivity |].
    apply lookup_insert_ne. intros Heq. apply reading_key_inj in Heq. contradiction. }
  split; [exact Hsame |].
  unfold loadReadingPosition. now rewrite Hsame.
Qed.

(** X11. The stored position lags one report behind. The save that
    [handlePaginationUpdate] makes runs in the render that received the
    report, so it writes the page of that render: after two reports in a
    row the store holds the page of the first report, stamped with the
    time of the second, while the reader is on the page of the second. *)
Theorem stored_page_lags_one_report (s : State) (k : string)
    (page1 total1 now1 page2 total2 now2 : Z) (ls : gmap string string) :
  bookKey s = Some k -> k <> "" -> currentContent s <> "" ->
  let path := replace ("epub://" +:+ k +:+ "/") "" (currentContent s) in
  let first := handlePaginationUpdate JSON_stringify page1 total1 s now1 ls in
  let second := handlePaginationUpdate JSON_stringify page2 total2 first.1 now2 first.2 in
  first.2 !! ("reading-" +:+ k)
  = Some (JSON_stringify (ReadingPosition k path (currentPage s) now1))
  /\ second.2 !! ("reading-" +:+ k)
     = Some (JSON_stringify (ReadingPosition k path page1 now2))
  /\ currentPage second.1 = page2
  /\ totalPages second.1 = total2.
Proof.
  intros Hk Hne Hcontent path first second.
  subst first second. unfold handlePaginationUpdate. cbn [fst snd].
  rewrite (save_with_book s k now1 ls Hk Hne Hcontent).
  rewrite (save_with_book (setTotalPages total1 (setCurrentPage page1 s)) k now2);
    [| exact Hk | exact Hne | exact Hcontent].
  repeat split; apply lookup_insert_eq.
Qed.

End Store.

Lemma save_then_load_witness :
  Reader.loadReadingPosition Sample.parse_saved_position (Some "frankenstein.epub")
    (Reader.saveReadingPosition Sample.stringify Sample.in_the_middle 1700000000000 ∅)
  = Normal Sample.saved_position.
Proof.
  apply (save_then_load Sample.stringify Sample.parse_saved_position
           Sample.in_the_middle "frankenstein.epub" 1700000000000 ∅);
    try reflexivity; intros Heq; vm_compute in Heq; discriminate Heq.
Defined.

Lemma save_keeps_other_books_witness :
  let ls : gmap string string :=
    {[ "reading-dracula.epub" := Sample.stringify Sample.foreign_position ]} in
  Reader.saveReadingPosition Sample.stringify Sample.in_the_middle 1700000000000 ls
    !! "reading-dracula.epub"
  = Some (Sample.stringify Sample.foreign_position).
Proof.
  intros ls.
  exact (proj1 (save_keeps_other_books Sample.stringify Sample.no_parse
                  Sample.in_the_middle "frankenstein.epub" "dracula.epub"
                  1700000000000 ls eq_refl ltac:(discriminate))).
Defined.

Lemma stored_page_lags_one_report_witness :
  let first := Reader.handlePaginationUpdate Sample.stringify 1 3
                 Sample.at_the_start 1700000000000 ∅ in
  let second := Reader.handlePaginationUpdate Sample.stringify 2 3
                  first.1 1700000000001 first.2 in
  second.2 !! "reading-frankenstein.epub"
  = Some (Sample.stringify
            (ReadingPosition "frankenstein.epub" "OEBPS/ch1.html" 1 1700000000001))
  /\ Reader.currentPage second.1 = 2.
Proof.
  intros first second.
  destruct (stored_page_lags_one_report Sample.stringify Sample.at_the_start
              "frankenstein.epub" 1 3 1700000000000 2 3 1700000000001 ∅)
    as (_ & Hstored & Hpage & _); try reflexivity; try discriminate.
  split; [exact Hstored | exact Hpage].
Defined.

(** ** Clicks on the table of contents *)

Section TocClicks.

Variable backend : Backend.

(** X12. A click on a table-of-contents entry shows
    [`epub://${bookKey}/${content}`] at page 0, the same URI that the
    original reader shows for the click. The spine index follows only when
    the backend finds the content in the spine; when it finds none or the
    call rejects, the index stays where it was and no error is shown. *)
Theorem toc_click (s : Reader.State) (s1 : ReaderV1.State) (c : string) :
  Reader.bookKey s = ReaderV1.bookKey s1 ->
  let s' := Reader.handleTocItemClick backend c s in
  Reader.currentContent s'
    = ReaderV1.currentContent (ReaderV1.handleTocItemClick c s1)
  /\ Reader.currentContent s' = "epub://" +:+ tmpl (Reader.bookKey s) +:+ "/" +:+ c
  /\ Reader.currentPage s' = 0
  /\ Reader.currentSpineIndex s'
     = match get_current_spine_index backend (Reader.bookKey s) (Some (JStr c)) with
       | Normal (Some found) => found
       | _ => Reader.currentSpineIndex s
       end
  /\ Reader.error s' = Reader.error s
  /\ Reader.loading s' = Reader.loading s
  /\ Reader.totalPages s' = Reader.totalPages s.
Proof.
  intros Hkey s'. subst s'. unfold Reader.handleTocItemClick, ReaderV1.handleTocItemClick.
  rewrite <- Hkey.
  destruct (get_current_spine_index backend (Reader.bookKey s) (Some (JStr c)))
    as [[found |] | e]; repeat split.
Qed.

(** X13. The original [loadBook] always ends with [loading] off. When
    the title or the table of contents cannot be fetched the error text is
    ["Failed to load book: "] followed by the rejection and the content
    stays as it was (the title already replaced when only the table of
    contents fails); when both are fetched the content becomes the first
    entry's content path, or stays as it was for an empty table of
    contents, and no error is set. *)
Theorem original_loadBook_outcomes (s : ReaderV1.State) :
  ReaderV1.loading (ReaderV1.afterLoadBook backend s) = false
  /\ (forall e,
        get_book_title backend (ReaderV1.bookKey s) = Throw e ->
        ReaderV1.afterLoadBook backend s
        = ReaderV1.setLoading false
            (ReaderV1.setError (Some ("Failed to load book: " +:+ e)) s))
  /\ (forall ttl e,
        get_book_title backend (ReaderV1.bookKey s) = Normal ttl ->
        get_book_toc backend (ReaderV1.bookKey s) = Throw e ->
        ReaderV1.afterLoadBook backend s
        = ReaderV1.setLoading false
            (ReaderV1.setError (Some ("Failed to load book: " +:+ e))
               (ReaderV1.setBookTitle ttl s)))
  /\ (forall ttl tocData,
        get_book_title backend (ReaderV1.bookKey s) = Normal ttl ->
        get_book_toc backend (ReaderV1.bookKey s) = Normal tocData ->
        ReaderV1.afterLoadBook backend s
        = ReaderV1.setLoading false
            (match head tocData with
             | Some first =>
                 ReaderV1.setCurrentContent
                   ("epub://" +:+ tmpl (ReaderV1.bookKey s) +:+ "/" +:+ content first)
                   (ReaderV1.setToc tocData
                      (ReaderV1.setBookTitle ttl (ReaderV1.setError None s)))
             | None =>
                 ReaderV1.setToc tocData
                   (ReaderV1.setBookTitle ttl (ReaderV1.setError None s))
             end)).
Proof.
  unfold ReaderV1.afterLoadBook, ReaderV1.loadBook. unfold_act.
  split; [| split; [| split]].
  - repeat case_match; simplify_eq; reflexivity.
  - intros e ->. destruct s; reflexivity.
  - intros ttl e -> ->. destruct s; reflexivity.
  - intros ttl tocData -> ->. rewrite len_pos, index_0.
    destruct tocData as [| first rest]; destruct s; reflexivity.
Qed.

End TocClicks.

Lemma toc_click_witness :
  Reader.currentContent
    (Reader.handleTocItemClick Sample.one_book "OEBPS/ch2.html" Sample.at_the_start)
  = "epub://frankenstein.epub/OEBPS/ch2.html".
Proof.
  apply (proj1 (proj2 (toc_click Sample.one_book Sample.at_the_start
                         (ReaderV1.initial (Some "frankenstein.epub"))
                         "OEBPS/ch2.html" eq_refl))).
Defined.

Lemma original_loadBook_outcomes_witness :
  ReaderV1.afterLoadBook Sample.no_toc (ReaderV1.initial (Some "frankenstein.epub"))
  = ReaderV1.setLoading false
      (ReaderV1.setError (Some "Failed to load book: Book not found")
         (ReaderV1.setBookTitle "Frankenstein"
            (ReaderV1.initial (Some "frankenstein.epub")))).
Proof.
  apply (proj1 (proj2 (proj2
           (original_loadBook_outcomes Sample.no_toc
              (ReaderV1.initial (Some "frankenstein.epub")))))); reflexivity.
Defined.

(** ** Messages from the rendered content *)

Section LinkMessages.
Import IframeViewer.

Variable openUrl : string -> completion unit.

(** A message that passes every test is handed to [handleExternalLink]. *)
Lemma handleMessage_accepts (event : MessageEvent) (fields : list (string * JSON))
    (url : string) :
  data event = Some (JObj fields) ->
  assoc "type" fields = Some (JStr "epub-external-link") ->
  assoc "url" fields = Some (JStr url) ->
  url <> "" ->
  origin event = "null" \/ starts_with "epub://" (origin event) = true ->
  handleMessage openUrl event = handleExternalLink openUrl url.
Proof.
  intros Hdata Htype Hurl Hne Horigin. unfold handleMessage.
  rewrite Hdata. cbn -[String.eqb starts_with handleExternalLink].
  rewrite Htype, Hurl. cbn -[String.eqb starts_with handleExternalLink].
  rewrite !String.eqb_refl. cbn -[String.eqb starts_with handleExternalLink].
  destruct url as [| c url]; [congruence |].
  cbn -[String.eqb starts_with handleExternalLink].
  destruct Horigin as [-> | ->]; [reflexivity |].
  now rewrite andb_false_r.
Qed.

(** A message that makes the listener call [openUrl] has passed every
    test. *)
Lemma handleMessage_opens (event : MessageEvent) (url : string) :
  OpenUrl url ∈ handleMessage openUrl event ->
  exists fields,
    data event = Some (JObj fields)
    /\ assoc "type" fields = Some (JStr "epub-external-link")
    /\ assoc "url" fields = Some (JStr url)
    /\ url <> ""
    /\ (origin event = "null" \/ starts_with "epub://" (origin event) = true).
Proof.
  unfold handleMessage.
  destruct (data event) as [[| b | n | t | items | fields] |] eqn:Hdata;
    cbn [truthy_value truthy typeof field prop negb orb];
    try (intros Hin; now apply elem_of_nil in Hin);
    try (destruct b; intros Hin; now apply elem_of_nil in Hin);
    try (destruct (negb (n =? 0)); intros Hin; now apply elem_of_nil in Hin);
    try (destruct (truthy_string t); intros Hin; now apply elem_of_nil in Hin).
  change (negb (String.eqb "object" "object")) with false. cbv iota.
  destruct (assoc "type" fields) as [[| | | tag | |] |] eqn:Htype;
    cbn [strict_eq_string negb];
    try (intros Hin; now apply elem_of_nil in Hin).
  destruct (String.eqb_spec tag "epub-external-link") as [-> | _];
    cbn [negb]; [| intros Hin; now apply elem_of_nil in Hin].
  destruct (assoc "url" fields) as [[| b | n | u | items | more] |] eqn:Hurl;
    cbn [truthy_value truthy typeof];
    cbn [negb orb String.eqb Ascii.eqb Bool.eqb]; rewrite ?orb_true_r;
    try (intros Hin; apply list_elem_of_singleton in Hin; discriminate Hin).
  rewrite orb_false_r.
  destruct u as [| c u]; cbn [truthy_string negb];
    [intros Hin; apply list_elem_of_singleton in Hin; discriminate Hin |].
  destruct (String.eqb_spec (origin event) "null") as [Hnull | Hnull]; cbn [negb andb].
  - intros Hin. exists fields. unfold handleExternalLink in Hin.
    apply elem_of_cons in Hin as [Hin | Hin]; [discriminate Hin |].
    apply elem_of_cons in Hin as [[= ->] | Hin].
    + repeat split; auto; try discriminate.
    + destruct (openUrl (String c u)); [now apply elem_of_nil in Hin |].
      apply elem_of_cons in Hin as [Hin | Hin]; [discriminate Hin |].
      apply list_elem_of_singleton in Hin. discriminate Hin.
  - destruct (starts_with "epub://" (origin event)) eqn:Hepub; cbn [negb].
    + intros Hin. exists fields. unfold handleExternalLink in Hin.
      apply elem_of_cons in Hin as [Hin | Hin]; [discriminate Hin |].
      apply elem_of_cons in Hin as [[= ->] | Hin].
      * repeat split; auto; try discriminate.
      * destruct (openUrl (String c u)); [now apply elem_of_nil in Hin |].
        apply elem_of_cons in Hin as [Hin | Hin]; [discriminate Hin |].
        apply list_elem_of_singleton in Hin. discriminate Hin.
    + intros Hin. apply list_elem_of_singleton in Hin. discriminate Hin.
Qed.

(** X14. The listener opens a link exactly for a well-formed message from
    the rendered content: [openUrl(url)] is called if and only if the data
    is an object whose [type] is the string ["epub-external-link"] and whose
    [url] is the non-empty string [url], and the origin is ["null"] or
    starts with ["epub://"]. It is then called once; the user is alerted
    only when that call rejects, with the URL and the rejection in the
    text. *)
Theorem link_opened_iff_valid (event : MessageEvent) (url : string) :
  (OpenUrl url ∈ handleMessage openUrl event
   <-> exists fields,
         data event = Some (JObj fields)
         /\ assoc "type" fields = Some (JStr "epub-external-link")
         /\ assoc "url" fields = Some (JStr url)
         /\ url <> ""
         /\ (origin event = "null" \/ starts_with "epub://" (origin event) = true))
  /\ (OpenUrl url ∈ handleMessage openUrl event ->
      handleMessage openUrl event
      = Console Log "[IframeViewer] Opening external link:" (Some (JStr url))
        :: OpenUrl url
        :: match openUrl url with
           | Normal _ => []
           | Throw e =>
               [Console Error "[IframeViewer] Failed to open external link:" (Some (JStr e));
                Alert ("Failed to open link: " +:+ url +:+ LF +:+ LF +:+ "Error: " +:+ e)]
           end).
Proof.
  split; [split |].
  - apply handleMessage_opens.
  - intros (fields & Hdata & Htype & Hurl & Hne & Horigin).
    rewrite (handleMessage_accepts event fields url) by assumption.
    unfold handleExternalLink. right. left.
  - intros Hin. apply handleMessage_opens in Hin
      as (fields & Hdata & Htype & Hurl & Hne & Horigin).
    now rewrite (handleMessage_accepts event fields url) by assumption.
Qed.

(** X15. What the listener does with a message it does not act on. A
    message whose [type] is not the string ["epub-external-link"], whatever
    else it is, is dropped without a trace. A link message whose [url] is
    missing, empty or not a string is logged as an error with the message
    itself, and a link message from an origin other than ["null"] and
    [epub://] is logged as a warning with the origin; neither opens
    anything. *)
Theorem link_message_rejections (event : MessageEvent) :
  (strict_eq_string (field (data event) "type") (Some "epub-external-link") = false ->
   handleMessage openUrl event = [])
  /\ (forall fields,
        data event = Some (JObj fields) ->
        assoc "type" fields = Some (JStr "epub-external-link") ->
        (forall url, url <> "" -> assoc "url" fields <> Some (JStr url)) ->
        handleMessage openUrl event
        = [Console Error "[IframeViewer] Invalid external link message:" (data event)])
  /\ (forall fields url,
        data event = Some (JObj fields) ->
        assoc "type" fields = Some (JStr "epub-external-link") ->
        assoc "url" fields = Some (JStr url) -> url <> "" ->
        origin event <> "null" -> starts_with "epub://" (origin event) = false ->
        handleMessage openUrl event
        = [Console Warn "[IframeViewer] Rejected message from origin:"
             (Some (JStr (origin event)))]).
Proof.
  split; [| split].
  - intros Htype. unfold handleMessage. rewrite Htype. cbn [negb].
    destruct (negb (truthy_value (data event))
              || negb (String.eqb (typeof (data event)) "object")); reflexivity.
  - intros fields Hdata Htype Hurl. unfold handleMessage. rewrite Hdata.
    cbn -[String.eqb starts_with handleExternalLink].
    rewrite Htype. cbn -[starts_with handleExternalLink].
    destruct (assoc "url" fields) as [[| b | n | u | items | more] |] eqn:Hu;
      cbn -[starts_with handleExternalLink]; rewrite ?orb_true_r; try reflexivity.
    destruct u as [| c u]; [reflexivity |].
    exfalso. apply (Hurl (String c u)); [discriminate | reflexivity].
  - intros fields url Hdata Htype Hurl Hne Hnull Hepub. unfold handleMessage.
    rewrite Hdata. cbn -[String.eqb starts_with handleExternalLink].
    rewrite Htype, Hurl. cbn -[starts_with handleExternalLink].
    destruct url as [| c url]; [congruence |].
    cbn -[String.eqb starts_with handleExternalLink].
    apply String.eqb_neq in Hnull. now rewrite Hnull, Hepub.
Qed.

End LinkMessages.

Lemma link_opened_iff_valid_witness :
  IframeViewer.handleMessage Sample.no_browser Sample.link_message
  = [IframeViewer.Console IframeViewer.Log "[IframeViewer] Opening external link:"
       (Some (JStr "https://example.com/"));
     IframeViewer.OpenUrl "https://example.com/";
     IframeViewer.Console IframeViewer.Error "[IframeViewer] Failed to open external link:"
       (Some (JStr "no handler"));
     IframeViewer.Alert
       ("Failed to open link: https://example.com/" +:+ IframeViewer.LF +:+ IframeViewer.LF
        +:+ "Error: no handler")].
Proof.
  apply (proj2 (link_opened_iff_valid Sample.no_browser Sample.link_message
                  "https://example.com/")).
  apply (proj2 (proj1 (link_opened_iff_valid Sample.no_browser Sample.link_message
                         "https://example.com/"))).
  exists [("type", JStr "epub-external-link"); ("url", JStr "https://example.com/")].
  repeat split; auto; try discriminate.
Defined.

Lemma link_message_rejections_witness :
  IframeViewer.handleMessage Sample.no_browser Sample.web_page_message
  = [IframeViewer.Console IframeViewer.Warn "[IframeViewer] Rejected message from origin:"
       (Some (JStr "https://example.org"))]
  /\ IframeViewer.handleMessage Sample.no_browser Sample.message_without_url
     = [IframeViewer.Console IframeViewer.Error
          "[IframeViewer] Invalid external link message:"
          (Some (JObj [("type", JStr "epub-external-link")]))].
Proof.
  split.
  - apply (proj2 (proj2 (link_message_rejections Sample.no_browser
                           Sample.web_page_message))
             [("type", JStr "epub-external-link"); ("url", JStr "https://example.com/")]
             "https://example.com/"); try reflexivity; discriminate.
  - apply (proj1 (proj2 (link_message_rejections Sample.no_browser
                           Sample.message_without_url))
             [("type", JStr "epub-external-link")]); try reflexivity.
    intros url _. discriminate.
Defined.

(** ** The rendered table of contents *)

Section RenderedToc.
Import TableOfContents.

(** What a button shows and does, with its depth. *)
Abbreviation shown :=
  (fun b : nat * Z * Z * Li => (b.1.1.1, button b.2, onClick b.2)).
Abbreviation declared :=
  (fun e : nat * TocItem => (e.1, label e.2, content e.2)).

Lemma buttons_of_component (item : TocItem) :
  forall (d : nat) (level outer : Z) (k : string),
    map shown (buttons_of d outer (TocItemComponent item level k))
    = map declared (entries_of d item).
Proof.
  induction item as [l c p ch IH] using TocItem_nested_ind.
  intros d level outer k. cbn [TocItemComponent buttons_of entries_of map fst snd].
  f_equal.
  generalize (outer + level * 20) as outer'. generalize (level + 1) as level'.
  generalize 0%nat as start.
  induction IH as [| child rest Hchild _ IHrest]; intros start level' outer';
    [reflexivity |].
  cbn [map_indexed flat_map]. rewrite !map_app. f_equal.
  - apply Hchild.
  - apply IHrest.
Qed.

(** The inline padding of an item that sits [d] items deep, and the sum
    of the paddings around its button. *)
Abbreviation padded :=
  (fun b : nat * Z * Z * Li =>
     b.1.1.2 = 20 * Z.of_nat b.1.1.1
     /\ b.1.2 = 10 * Z.of_nat b.1.1.1 * (Z.of_nat b.1.1.1 + 1)).

Lemma buttons_of_padding (item : TocItem) :
  forall (d : nat) (level outer : Z) (k : string),
    level = Z.of_nat d ->
    outer = 10 * Z.of_nat d * (Z.of_nat d - 1) ->
    Forall padded (buttons_of d outer (TocItemComponent item level k)).
Proof.
  induction item as [l c p ch IH] using TocItem_nested_ind.
  intros d level outer k Hlevel Houter.
  cbn [TocItemComponent buttons_of]. constructor.
  - cbn [fst snd]. split; lia.
  - assert (level + 1 = Z.of_nat (S d)) as Hlevel' by lia.
    assert (outer + level * 20 = 10 * Z.of_nat (S d) * (Z.of_nat (S d) - 1)) as Houter'
      by lia.
    revert Hlevel' Houter'.
    generalize (outer + level * 20) as outer'. generalize (level + 1) as level'.
    generalize 0%nat as start.
    induction IH as [| child rest Hchild _ IHrest];
      intros start level' outer' Hlevel' Houter'; [constructor |].
    cbn [map_indexed flat_map]. apply Forall_app. split.
    + now apply Hchild.
    + now apply IHrest.
Qed.

Lemma buttons_of_components (items : list TocItem) (d : nat) (level outer : Z)
    (start : nat) :
  map shown
    (flat_map (buttons_of d outer)
       (map_indexed (fun item index => TocItemComponent item level (item_key item index))
          start items))
  = map declared (flat_map (entries_of d) items).
Proof.
  revert start. induction items as [| x items IH]; intros start; [reflexivity |].
  cbn [map_indexed flat_map]. rewrite !map_app. f_equal.
  - apply buttons_of_component.
  - apply IH.
Qed.

Lemma buttons_of_components_padding (items : list TocItem) (start : nat) :
  Forall padded
    (flat_map (buttons_of 0 0)
       (map_indexed (fun item index => TocItemComponent item 0 (item_key item index))
          start items)).
Proof.
  revert start. induction items as [| x items IH]; intros start; [constructor |].
  cbn [map_indexed flat_map]. apply Forall_app. split.
  - apply buttons_of_padding; reflexivity.
  - apply IH.
Qed.

(** X16. The rendered list shows the table of contents entry by entry:
    its buttons, read from top to bottom, are the entries of the forest,
    parents before children, each exactly once, nested as deep as the entry
    lies, labelled with the entry's label and handing the entry's own
    content path to [onItemClick]. An empty table of contents shows no
    button. *)
Theorem toc_buttons_follow_the_forest (toc : list TocItem) :
  map shown (buttons (listed (TableOfContents toc))) = map declared (entries toc)
  /\ length (buttons (listed (TableOfContents toc))) = length (entries toc).
Proof.
  assert (map shown (buttons (listed (TableOfContents toc))) = map declared (entries toc))
    as Hsame.
  { unfold TableOfContents.TableOfContents, buttons, entries.
    destruct (len toc =? 0) eqn:Hempty.
    - destruct toc; [reflexivity |]. apply Z.eqb_eq in Hempty. discriminate Hempty.
    - cbn [listed]. apply buttons_of_components. }
  split; [exact Hsame |].
  apply (f_equal length) in Hsame. now rewrite !length_map in Hsame.
Qed.

(** X17. The inline padding adds up along the nesting. An item that sits
    [d] items deep carries [paddingLeft] of [20 * d] pixels and lies inside
    the items above it, each with its own padding, so the paddings around
    its button sum to [10 * d * (d + 1)] pixels: 0, 20, 60, 120, ... and
    not 20 pixels more per level. *)
Theorem toc_padding_accumulates (toc : list TocItem) :
  Forall padded (buttons (listed (TableOfContents toc))).
Proof.
  unfold TableOfContents.TableOfContents, buttons.
  destruct (len toc =? 0); [constructor |].
  cbn [listed]. apply buttons_of_components_padding.
Qed.

(** The digits of a number hold no hyphen. *)
Lemma hyphen_free_pretty_N_go (x : N) :
  forall s, hyphen_free s = true -> hyphen_free (pretty_N_go x s) = true.
Proof.
  induction (N.lt_wf_0 x) as [x _ IH]. intros s Hs.
  destruct (decide (x = 0)%N) as [-> | Hx]; [exact Hs |].
  rewrite pretty_N_go_step by lia. apply IH; [apply N.div_lt; lia |].
  cbn [hyphen_free]. rewrite Hs, andb_true_r.
  unfold pretty_N_char. repeat case_match; reflexivity.
Qed.

Lemma hyphen_free_pretty (index : nat) : hyphen_free (pretty index) = true.
Proof.
  unfold pretty, pretty_nat, pretty, pretty_N.
  case_decide; [reflexivity |]. now apply hyphen_free_pretty_N_go.
Qed.

Lemma hyphen_in_the_way (s d : string) : hyphen_free (s +:+ "-" +:+ d) = false.
Proof.
  induction s as [| c s IH]; [reflexivity |].
  change (String c s +:+ "-" +:+ d) with (String c (s +:+ "-" +:+ d)).
  cbn [hyphen_free]. rewrite IH. apply andb_false_r.
Qed.

(** A string is cut at its last hyphen in one way only. *)
Lemma last_hyphen (s1 s2 d1 d2 : string) :
  hyphen_free d1 = true -> hyphen_free d2 = true ->
  s1 +:+ "-" +:+ d1 = s2 +:+ "-" +:+ d2 -> d1 = d2.
Proof.
  intros Hd1 Hd2. revert s2. induction s1 as [| c s1 IH]; intros [| c' s2] Heq.
  - now injection Heq.
  - change (String "-" d1 = String c' (s2 +:+ "-" +:+ d2)) in Heq.
    injection Heq as _ Heq. rewrite Heq, hyphen_in_the_way in Hd1. discriminate.
  - change (String c (s1 +:+ "-" +:+ d1) = String "-" d2) in Heq.
    injection Heq as _ Heq. rewrite <- Heq, hyphen_in_the_way in Hd2. discriminate.
  - change (String c (s1 +:+ "-" +:+ d1) = String c' (s2 +:+ "-" +:+ d2)) in Heq.
    injection Heq as _ Heq. now apply (IH s2).
Qed.

Lemma item_key_index (a b : TocItem) (i j : nat) :
  item_key a i = item_key b j -> i = j.
Proof.
  unfold item_key. intros Heq.
  apply last_hyphen in Heq; [| apply hyphen_free_pretty | apply hyphen_free_pretty].
  now apply (inj pretty).
Qed.

Lemma key_of_component (item : TocItem) (level : Z) (k : string) :
  key (TocItemComponent item level k) = k.
Proof. destruct item; reflexivity. Qed.

Lemma ul_of_component (item : TocItem) (level : Z) (k : string) :
  ul (TocItemComponent item level k)
  = map_indexed (fun child index => TocItemComponent child (level + 1) (item_key child index))
      0%nat (children item).
Proof. destruct item; reflexivity. Qed.

Lemma sibling_keys_from (items : list TocItem) (level : Z) (start : nat) (k : string) :
  k ∈ map key
        (map_indexed (fun item index => TocItemComponent item level (item_key item index))
           start items) ->
  exists item index, (start <= index)%nat /\ k = item_key item index.
Proof.
  revert start. induction items as [| x items IH]; intros start Hin.
  - now apply elem_of_nil in Hin.
  - cbn [map_indexed map] in Hin. apply elem_of_cons in Hin as [-> | Hin].
    + exists x, start. split; [lia | apply key_of_component].
    + apply IH in Hin as (item & index & Hle & ->). exists item, index. split; [lia | reflexivity].
Qed.

Lemma sibling_keys_NoDup (items : list TocItem) (level : Z) (start : nat) :
  NoDup (map key
           (map_indexed (fun item index => TocItemComponent item level (item_key item index))
              start items)).
Proof.
  revert start. induction items as [| x items IH]; intros start; [constructor |].
  cbn [map_indexed map]. constructor; [| apply IH].
  rewrite key_of_component. intros Hin.
  apply sibling_keys_from in Hin as (item & index & Hle & Heq).
  apply item_key_index in Heq. lia.
Qed.

Lemma nested_keys_NoDup (item : TocItem) :
  forall (d : nat) (level outer : Z) (k : string),
    Forall (fun b : nat * Z * Z * Li => NoDup (map key (ul b.2)))
      (buttons_of d outer (TocItemComponent item level k)).
Proof.
  induction item as [l c p ch IH] using TocItem_nested_ind.
  intros d level outer k. cbn [TocItemComponent buttons_of]. constructor.
  - cbn [snd ul]. apply sibling_keys_NoDup.
  - generalize (outer + level * 20) as outer'. generalize (level + 1) as level'.
    generalize 0%nat as start.
    induction IH as [| child rest Hchild _ IHrest]; intros start level' outer';
      [constructor |].
    cbn [map_indexed flat_map]. apply Forall_app. split.
    + apply Hchild.
    + apply IHrest.
Qed.

Lemma nested_keys_NoDup_list (items : list TocItem) (start : nat) :
  Forall (fun b : nat * Z * Z * Li => NoDup (map key (ul b.2)))
    (flat_map (buttons_of 0 0)
       (map_indexed (fun item index => TocItemComponent item 0 (item_key item index))
          start items)).
Proof.
  revert start. induction items as [| x items IH]; intros start; [constructor |].
  cbn [map_indexed flat_map]. apply Forall_app. split.
  - apply nested_keys_NoDup.
  - apply IH.
Qed.

(** X18. React keys never clash. The keys [`${content}-${index}`] of the
    items of one list are pairwise distinct, at the top level and in the
    nested list of every item, also when several entries of the list point
    at the same content. *)
Theorem toc_keys_distinct (toc : list TocItem) :
  NoDup (map key (listed (TableOfContents toc)))
  /\ Forall (fun b : nat * Z * Z * Li => NoDup (map key (ul b.2)))
       (buttons (listed (TableOfContents toc))).
Proof.
  unfold TableOfContents.TableOfContents, buttons.
  destruct (len toc =? 0); [split; constructor |].
  cbn [listed]. split; [apply sibling_keys_NoDup | apply nested_keys_NoDup_list].
Qed.

End RenderedToc.

(** ** The library view *)

Section Library.
Import BookLibrary.

(** X19. What the library shows after [loadBookCovers], from any earlier
    state (the first load and a retry alike): never the loading notice.
    When the backend answers, the books are replaced by the answer and an
    earlier error is cleared; the view is the empty notice for no book and
    otherwise the grid with one card per book, in the order of the answer,
    each leading to [`/book/${bookKey}`]. When the backend rejects, the
    books are kept and the view is the error
    ["Failed to load books: "] followed by the rejection. *)
Theorem library_after_load (s : State)
    (answer : completion (list (string * string * string))) :
  let s' := afterLoadBookCovers answer s in
  loading s' = false
  /\ (forall covers,
        answer = Normal covers ->
        s' = mkState covers false None
        /\ render s' = match covers with
                       | [] => EmptyState
                       | _ => BookGrid (map card covers)
                       end
        /\ map navigateTo (map card covers) = map (fun b => "/book/" +:+ b.1.1) covers)
  /\ (forall e,
        answer = Throw e ->
        s' = mkState (books s) false (Some ("Failed to load books: " +:+ e))
        /\ render s' = ErrorView ("Failed to load books: " +:+ e)).
Proof.
  intros s'. subst s'. unfold afterLoadBookCovers, loadBookCovers. unfold_act.
  destruct answer as [covers | e]; cbn [snd].
  - split; [reflexivity |]. split; [| discriminate].
    intros covers' [= <-]. split; [reflexivity |]. split.
    + unfold render. cbn [loading error books truthy_opt_string setLoading setBooks setError].
      destruct covers; reflexivity.
    + rewrite map_map. apply map_ext. intros [[k t] u]. reflexivity.
  - split; [reflexivity |]. split; [discriminate |].
    intros e' [= <-]. split; reflexivity.
Qed.

End Library.

Lemma library_after_load_witness :
  BookLibrary.render Sample.failed_library
  = BookLibrary.ErrorView "Failed to load books: backend unavailable"
  /\ BookLibrary.render
       (BookLibrary.afterLoadBookCovers (Normal Sample.one_cover) Sample.failed_library)
     = BookLibrary.BookGrid
         [BookLibrary.mkCard "frankenstein.epub" "/book/frankenstein.epub"
            "epub://frankenstein.epub/OEBPS/cover.jpg" "Frankenstein cover"
            "Frankenstein" "frankenstein.epub"].
Proof.
  split.
  - apply (proj2 (proj2 (library_after_load BookLibrary.initial
                           (Throw "backend unavailable")))
             "backend unavailable" eq_refl).
  - apply (proj1 (proj2 (library_after_load Sample.failed_library
                           (Normal Sample.one_cover)))
             Sample.one_cover eq_refl).
Defined.

(** ** A reading session *)

Section Session.
Import Reader ReaderView.

Variable JSON_stringify : JSON -> string.
Variable JSON_parse : string -> completion JSON.
Variable backend : Backend.

(** X20. A reading session stays on the spine. A reader mounted for a
    book whose spine is not empty, with no position stored for the book,
    shows the first spine entry at spine index 0 once the book is loaded,
    and through any turning of pages after that the content shown is the
    spine entry at the current spine index. *)
Theorem session_stays_on_spine (k : string) (ls : gmap string string)
    (ttl : string) (tocData : list TocItem) (first : string) (rest : list string)
    (evs : list Event) :
  k <> "" ->
  get_book_title backend (Some k) = Normal ttl ->
  get_book_toc backend (Some k) = Normal tocData ->
  get_spine backend (Some k) = Normal (first :: rest) ->
  ls !! ("reading-" +:+ k) = None ->
  forallb is_paging evs = true ->
  let opened := Reader.run JSON_stringify JSON_parse backend (mounted (Some k) ls)
                  [EvLoadBook] in
  let final := Reader.run JSON_stringify JSON_parse backend (mounted (Some k) ls)
                 (EvLoadBook :: evs) in
  currentContent (state opened) = "epub://" +:+ k +:+ "/" +:+ first
  /\ currentSpineIndex (state opened) = 0
  /\ on_spine (state final) = true.
Proof.
  intros Hne Httl Htoc Hspine Hls Hevs opened final.
  assert (state opened
          = setLoading false
              (setCurrentSpineIndex 0
                 (setCurrentContent (epub_uri (Some k) first)
                    (setSpine (first :: rest)
                       (setToc tocData
                          (setBookTitle ttl (setError None (initial (Some k))))))))) as Hopened.
  { subst opened. cbn [Reader.run fold_left Reader.step state mounted localStorage].
    unfold bookKeyEffect. cbn [bookKey initial].
    destruct k as [| c k]; [congruence |]. cbn [truthy_opt_string truthy_string negb].
    apply (loadBook_from_the_start JSON_parse backend (initial (Some (String c k))) ls
             JNull ttl tocData (first :: rest)); try assumption; try reflexivity.
    unfold loadReadingPosition. cbn [bookKey initial truthy_opt_string truthy_string negb].
    change (reading_key (Some (String c k))) with ("reading-" +:+ String c k).
    now rewrite Hls. }
  split; [now rewrite Hopened |]. split; [now rewrite Hopened |].
  change (on_spine (state (Reader.run JSON_stringify JSON_parse backend opened evs)) = true).
  apply paging_run_on_spine; [exact Hevs |].
  rewrite Hopened. unfold on_spine. cbn. apply String.eqb_refl.
Qed.

End Session.

Lemma session_stays_on_spine_witness :
  ReaderView.on_spine
    (Reader.state
       (Reader.run Sample.stringify Sample.no_parse Sample.one_book
          (Reader.mounted (Some "frankenstein.epub") ∅)
          (Reader.EvLoadBook :: Sample.there_and_back))) = true.
Proof.
  apply (session_stays_on_spine Sample.stringify Sample.no_parse Sample.one_book
           "frankenstein.epub" ∅ "Frankenstein" Sample.frankenstein_toc
           "OEBPS/ch1.html" ["OEBPS/ch2.html"] Sample.there_and_back);
    try reflexivity. discriminate.
Defined.
